(** * Exploration wrappers and recorders of torchrl: a shallow embedding

    Sources: [torchrl/modules/td_module/exploration.py] (epsilon-greedy and
    Ornstein-Uhlenbeck exploration wrappers) and [torchrl/record/recorder.py]
    (video and tensordict recorders).

    Numbers.  Python floats and the entries of floating tensors are modelled
    by exact rationals ([Q]): the arithmetic of the source is kept, operation
    by operation and in the source's order, but the rounding of the machine
    formats is not represented.  Equalities between computed rationals are
    therefore stated with [==] ([Qeq]).  Python integers are [Z]; the entries
    of [torch.long] tensors are [Z] with the 64-bit wrap-around written out.

    Effects.  Exceptions are values of [exn] carried by [result]; random
    draws are inputs (oracles) of the functions that consume them; an object
    mutated in place is passed in and returned. *)

From Stdlib Require Import QArith Qminmax Qround Lqa ZArith Lia.
From stdpp Require Import base option strings list gmap.

(** ** Exceptions and results *)

Inductive exn : Type :=
| RuntimeError (msg : string)
| ValueError (msg : string)
| KeyError (key : string)
| AttributeError (name : string)
| IndexError
| ZeroDivisionError
| Exception (msg : string).

Inductive result (A : Type) : Type :=
| Ok (a : A)
| Raise (e : exn).
Arguments Ok {A} a.
Arguments Raise {A} e.

#[global] Instance result_ret : MRet result := fun A a => Ok a.
#[global] Instance result_bind : MBind result := fun A B k r =>
  match r with Ok a => k a | Raise e => Raise e end.
#[global] Instance result_fmap : FMap result := fun A B f r =>
  match r with Ok a => Ok (f a) | Raise e => Raise e end.

Definition raises {A} (r : result A) : Prop := exists e, r = Raise e.

(** [for _ in range(n): body] over a state that the body may abort. *)
Fixpoint for_range {St : Type} (n : nat) (body : St -> result St) (s : St)
  : result St :=
  match n with
  | O => Ok s
  | S k => s' ← body s; for_range k body s'
  end.

(** Python's [max(a, b)] on two numbers: [b] when [a < b], else [a]. *)
Definition py_max (a b : Q) : Q :=
  match (a ?= b)%Q with Lt => b | _ => a end.

(** ** Batched tensors

    A tensor of the exploration code has a leading batch dimension and one
    feature dimension: it is a list of rows.  [FloatTensor] is a floating
    tensor, [LongTensor] a [torch.long] one. *)

Inductive tensor : Type :=
| FloatTensor (rows : list (list Q))
| LongTensor (rows : list (list Z)).

(** An entry-wise operation on the rows of a tensor. *)
Definition map2d {A B} (f : A -> B) (rows : list (list A)) : list (list B) :=
  fmap (M := list) f <$> rows.

Definition to_float (t : tensor) : list (list Q) :=
  match t with
  | FloatTensor r => r
  | LongTensor r => map2d inject_Z r
  end.

(** The shape, as the list of the row lengths (for a [B x d] tensor: [B]
    times [d]). *)
Definition shape (t : tensor) : list nat :=
  match t with
  | FloatTensor r => length <$> r
  | LongTensor r => length <$> r
  end.

Definition batch_dim (t : tensor) : nat := length (shape t).

Definition wrap64 (z : Z) : Z := ((z + 2 ^ 63) mod 2 ^ 64 - 2 ^ 63)%Z.

Fixpoint zipWithM {A B C} (f : A -> B -> result C) (xs : list A) (ys : list B)
  : result (list C) :=
  match xs, ys with
  | x :: xs', y :: ys' => c ← f x y; cs ← zipWithM f xs' ys'; Ok (c :: cs)
  | _, _ => Ok []
  end.

Fixpoint map_result {A C} (f : A -> result C) (xs : list A) : result (list C) :=
  match xs with
  | [] => Ok []
  | x :: xs' => c ← f x; cs ← map_result f xs'; Ok (c :: cs)
  end.

Definition size_mismatch : exn :=
  RuntimeError "The size of tensor a must match the size of tensor b".

(** Broadcasting along one dimension: equal sizes are paired, a size-1
    operand is repeated, anything else is an error. *)
Definition broadcast {A B C} (f : A -> B -> result C) (xs : list A) (ys : list B)
  : result (list C) :=
  if (length xs =? length ys)%nat then zipWithM f xs ys
  else match xs, ys with
       | [x], _ => map_result (f x) ys
       | _, [y] => map_result (fun x => f x y) xs
       | _, _ => Raise size_mismatch
       end.

Definition broadcast2 {A} (f : A -> A -> A) (a b : list (list A))
  : result (list (list A)) :=
  broadcast (broadcast (fun x y => Ok (f x y))) a b.

(** Tensor-tensor arithmetic with type promotion: two long tensors give a
    long tensor (64-bit), anything else a floating tensor. *)
Definition tensor_arith (fq : Q -> Q -> Q) (fz : Z -> Z -> Z) (a b : tensor)
  : result tensor :=
  match a, b with
  | LongTensor x, LongTensor y =>
      LongTensor <$> broadcast2 (fun u v => wrap64 (fz u v)) x y
  | _, _ => FloatTensor <$> broadcast2 fq (to_float a) (to_float b)
  end.

(** A tensor combined with a Python float: always a floating tensor. *)
Definition float_scalar_op (f : Q -> Q) (t : tensor) : tensor :=
  FloatTensor (map2d f (to_float t)).

(** A tensor combined with a Python int: the dtype is kept. *)
Definition int_scalar_op (f : Z -> Z) (fq : Q -> Q) (t : tensor) : tensor :=
  match t with
  | FloatTensor r => FloatTensor (map2d fq r)
  | LongTensor r => LongTensor (map2d (fun z => wrap64 (f z)) r)
  end.

(** [torch.zeros(shape)] for the shape of [t], floating. *)
Definition zeros_like_shape (t : tensor) : tensor :=
  FloatTensor ((fun n => replicate n 0%Q) <$> shape t).

(** [torch.zeros([B, 1], dtype=torch.long)]. *)
Definition zeros_long (B : nat) : tensor := LongTensor (replicate B [0%Z]).

(** ** The structured record (TensorDict) *)

(** Modelled from the spec: the TensorDict class of the repository is not
    among the sources.  The spec describes it as "a mapping from string keys
    to tensor-valued entries sharing a leading batch-size dimension; supports
    get/set/select/clone; mutated in place by wrappers".  One batch dimension
    is modelled.  [get] of a missing key fails; [set] adds or replaces an
    entry; [set_] replaces an existing entry in place and fails on a missing
    key; both refuse an entry whose leading dimension is not the batch
    size. *)
Record tensordict : Type := TensorDict {
  batch_size : nat;
  entries : gmap string tensor
}.

(** Modelled from the spec: [tensordict.get(key)] of the missing TensorDict
    class; a missing key is an error. *)
Definition get (td : tensordict) (k : string) : result tensor :=
  match entries td !! k with
  | Some v => Ok v
  | None => Raise (KeyError k)
  end.

Definition batch_mismatch : exn :=
  RuntimeError "batch dimension mismatch".

(** Modelled from the spec: [tensordict.set(key, value)] of the missing
    TensorDict class; the entry is added or replaced, and must share the
    batch dimension of the record. *)
Definition set (td : tensordict) (k : string) (v : tensor) : result tensordict :=
  if (batch_dim v =? batch_size td)%nat
  then Ok (TensorDict (batch_size td) (<[k := v]> (entries td)))
  else Raise batch_mismatch.

(** Modelled from the spec: [tensordict.set_(key, value)] of the missing
    TensorDict class, the in-place update of an entry that exists. *)
Definition set_ (td : tensordict) (k : string) (v : tensor) : result tensordict :=
  match entries td !! k with
  | None => Raise (KeyError k)
  | Some _ =>
      if (batch_dim v =? batch_size td)%nat
      then Ok (TensorDict (batch_size td) (<[k := v]> (entries td)))
      else Raise batch_mismatch
  end.

(** Modelled from the spec: [expand_as_right] of [torchrl.data.utils] is not
    among the sources.  It repeats a per-batch-element value along the
    feature dimension of the destination ("sampled independently per
    element"), and fails when the batch dimensions differ. *)
Definition expand_as_right {A} (cond : list A) (dest : tensor)
  : result (list (list A)) :=
  if (length cond =? batch_dim dest)%nat
  then Ok (zip_with (fun c n => replicate n c) cond (shape dest))
  else Raise size_mismatch.

(** [cond.to(dtype of dest)] followed by [expand_as_right(cond, dest)], for
    a boolean [cond]. *)
Definition cond_as (cond : list bool) (dest : tensor) : result tensor :=
  match dest with
  | FloatTensor _ =>
      FloatTensor <$> expand_as_right ((fun b : bool => if b then 1%Q else 0%Q) <$> cond) dest
  | LongTensor _ =>
      LongTensor <$> expand_as_right ((fun b : bool => if b then 1%Z else 0%Z) <$> cond) dest
  end.

Module TDModule.
(** Modelled from the spec: the policy class TDModule is not among the
    sources.  The spec gives "a policy object with [forward(record)->record]";
    the wrappers also read its list of output keys. *)
Record t : Type := mk {
  forward : tensordict -> result tensordict;
  out_keys : list string
}.
End TDModule.

(** [exploration_mode()]: the ambient flag, a string or [None]. *)
Definition random_or_unset (mode : option string) : bool :=
  match mode with
  | None => true
  | Some s => bool_decide (s = "random")
  end.

Definition Qltb (a b : Q) : bool :=
  match (a ?= b)%Q with Lt => true | _ => false end.

(** The first element of a Python list ([l[0]]). *)
Definition first {A} (l : list A) : result A :=
  match l with
  | x :: _ => Ok x
  | [] => Raise IndexError
  end.

(** ** Epsilon-greedy wrapper *)

Module EGreedyWrapper.

Record t : Type := mk {
  td_module : TDModule.t;
  eps_init : Q;
  eps_end : Q;
  annealing_num_steps : Z;
  eps : Q
}.

Definition __init__ (policy : TDModule.t) (eps_init eps_end : Q)
  (annealing_num_steps : Z) : result t :=
  if Qltb eps_init eps_end
  then Raise (RuntimeError "eps should decrease over time or be constant")
  else Ok (mk policy eps_init eps_end annealing_num_steps eps_init).

(** The body of the loop of [step].  The quotient by
    [annealing_num_steps] is the exact one; for [annealing_num_steps = 0]
    the source computes a non-finite value, which the rationals do not
    have: every statement about [step] below assumes a non-zero horizon. *)
Definition decay (w : t) : t :=
  mk (td_module w) (eps_init w) (eps_end w) (annealing_num_steps w)
     (py_max (eps_end w)
        (eps w - (eps_init w - eps_end w) / inject_Z (annealing_num_steps w))).

Definition step (w : t) (frames : Z) : t :=
  Nat.iter (Z.to_nat frames) decay w.

(** [rand] is [torch.rand(tensordict.shape)] and [spec_rand] is
    [self.td_module.spec.rand(tensordict.shape)], both as functions of the
    batch size. *)
Definition forward (w : t) (mode : option string) (rand : nat -> list Q)
  (spec_rand : nat -> tensor) (td : tensordict) : result tensordict :=
  td ← TDModule.forward (td_module w) td;
  if random_or_unset mode then
    k ← first (TDModule.out_keys (td_module w));
    out ← get td k;
    let eps := eps w in
    cond ← cond_as ((fun u => Qltb u eps) <$> rand (batch_size td)) out;
    a ← tensor_arith Qmult Z.mul cond (spec_rand (batch_size td));
    b ← tensor_arith Qmult Z.mul
          (int_scalar_op (fun z => 1 - z)%Z (fun q => 1 - q)%Q cond) out;
    out ← tensor_arith Qplus Z.add a b;
    set td k out
  else Ok td.

End EGreedyWrapper.

(** ** Ornstein-Uhlenbeck process *)

Module _OrnsteinUhlenbeckProcess.

(** [x0]: the Python float [0.0] when not given, else a tensor. *)
Inductive x0_t : Type :=
| X0Float (q : Q)
| X0Tensor (x : tensor).

Record t : Type := mk {
  mu : Q;
  sigma : Q;
  m : Q;
  c : Q;
  sigma_min : Q;
  theta : Q;
  dt : Q;
  x0 : x0_t;
  key : string;
  _noise_key : string;
  _steps_key : string;
  out_keys : list string
}.

Definition __init__ (theta mu sigma dt : Q) (x0 : option tensor)
  (sigma_min : option Q) (n_steps_annealing : Z) (key : string) : result t :=
  msm ← match sigma_min with
        | Some smin =>
            if (n_steps_annealing =? 0)%Z then Raise ZeroDivisionError
            else Ok ((- (sigma - smin) / inject_Z n_steps_annealing)%Q, smin)
        | None => Ok (0%Q, sigma)
        end;
  Ok (mk mu sigma msm.1 sigma msm.2 theta dt
        (match x0 with Some x => X0Tensor x | None => X0Float 0 end)
        key "_ou_prev_noise" "_ou_steps" ["_ou_prev_noise"; "_ou_steps"]).

Definition noise_key (ou : t) : string := _noise_key ou.
Definition steps_key (ou : t) : string := _steps_key ou.

Definition _make_noise_pair (ou : t) (td : tensordict) : result tensordict :=
  a ← get td (key ou);
  td ← set td (noise_key ou) (zeros_like_shape a);
  set td (steps_key ou) (zeros_long (batch_size td)).

(** [(self.m * n_steps + self.c).clamp_min(self.sigma_min)] *)
Definition current_sigma (ou : t) (n_steps : tensor) : tensor :=
  float_scalar_op (fun x => Qmax x (sigma_min ou))
    (float_scalar_op (fun x => x + c ou)%Q
       (float_scalar_op (fun x => m ou * x)%Q n_steps)).

Definition add_x0 (ou : t) (fq : Q -> Q -> Q) (fz : Z -> Z -> Z) (a : tensor)
  : result tensor :=
  match x0 ou with
  | X0Float q => Ok (float_scalar_op (fun p => fq p q) a)
  | X0Tensor x => tensor_arith fq fz a x
  end.

(** [np_sqrt] is [numpy.sqrt]; [randn_like] is [torch.randn_like], the
    standard-normal draws for the tensor it is given. *)
Definition add_sample (np_sqrt : Q -> Q) (randn_like : tensor -> tensor)
  (ou : t) (td : tensordict) (eps : Q) : result tensordict :=
  td ← match entries td !! noise_key ou with
       | None => _make_noise_pair ou td
       | Some _ => Ok td
       end;
  prev_noise ← get td (noise_key ou);
  prev_noise ← add_x0 ou Qplus Z.add prev_noise;
  n_steps ← get td (steps_key ou);
  let drift :=
    float_scalar_op (fun x => x * dt ou)%Q
      (float_scalar_op (fun x => theta ou * x)%Q
         (float_scalar_op (fun p => mu ou - p)%Q prev_noise)) in
  let scale :=
    float_scalar_op (fun x => x * np_sqrt (dt ou))%Q (current_sigma ou n_steps) in
  s1 ← tensor_arith Qplus Z.add prev_noise drift;
  s2 ← tensor_arith Qmult Z.mul scale (randn_like prev_noise);
  noise ← tensor_arith Qplus Z.add s1 s2;
  stored ← add_x0 ou Qminus Z.sub noise;
  td ← set_ td (noise_key ou) stored;
  a ← get td (key ou);
  a ← tensor_arith Qplus Z.add a (float_scalar_op (fun x => eps * x)%Q noise);
  td ← set_ td (key ou) a;
  set_ td (steps_key ou) (int_scalar_op (fun z => z + 1)%Z (fun q => q + 1)%Q n_steps).

End _OrnsteinUhlenbeckProcess.

(** ** Ornstein-Uhlenbeck wrapper *)

Module OrnsteinUhlenbeckProcessWrapper.

Record t : Type := mk {
  td_module : TDModule.t;
  ou : _OrnsteinUhlenbeckProcess.t;
  eps_init : Q;
  eps_end : Q;
  annealing_num_steps : Z;
  eps : Q;
  out_keys : list string;
  safe : bool
}.

(** The composite spec built by the constructor and the projection hook
    registered when [safe] is set belong to classes that are not among the
    sources; they are left out. *)
Definition __init__ (policy : TDModule.t) (eps_init eps_end : Q)
  (annealing_num_steps : Z) (theta mu sigma dt : Q) (x0 : option tensor)
  (sigma_min : option Q) (n_steps_annealing : Z) (key : string) (safe : bool)
  : result t :=
  ou ← _OrnsteinUhlenbeckProcess.__init__ theta mu sigma dt x0 sigma_min
         n_steps_annealing key;
  if Qltb eps_init eps_end
  then Raise (ValueError "eps should decrease over time or be constant")
  else
    let keys := TDModule.out_keys policy ++ _OrnsteinUhlenbeckProcess.out_keys ou in
    if bool_decide (NoDup keys)
    then Ok (mk policy ou eps_init eps_end annealing_num_steps eps_init keys safe)
    else Raise (RuntimeError "Got multiple identical output keys").

Definition decay (w : t) : result t :=
  if (0 <? annealing_num_steps w)%Z
  then Ok (mk (td_module w) (ou w) (eps_init w) (eps_end w)
             (annealing_num_steps w)
             (py_max (eps_end w)
                (eps w - (eps_init w - eps_end w) / inject_Z (annealing_num_steps w)))
             (out_keys w) (safe w))
  else Raise (ValueError "step() called with a non-positive annealing_num_steps").

Definition step (w : t) (frames : Z) : result t :=
  for_range (Z.to_nat frames) decay w.

Definition forward (np_sqrt : Q -> Q) (randn_like : tensor -> tensor)
  (w : t) (mode : option string) (td : tensordict) : result tensordict :=
  td ← TDModule.forward (td_module w) td;
  if random_or_unset mode
  then _OrnsteinUhlenbeckProcess.add_sample np_sqrt randn_like (ou w) td (eps w)
  else Ok td.

End OrnsteinUhlenbeckProcessWrapper.

(** ** Observation tensors of the recorders

    The video recorder inspects the rank and the sizes of its frames, so a
    frame carries its dimensions, its dtype and its entries in row-major
    order. *)

Inductive dtype : Type := float32 | uint8.

Record frame : Type := Frame {
  dims : list nat;
  dty : dtype;
  data : list Q
}.

Definition ndimension (x : frame) : nat := length (dims x).

(** [x.shape[-1]] *)
Definition last_dim (x : frame) : result nat :=
  match last (dims x) with
  | Some n => Ok n
  | None => Raise IndexError
  end.

(** [x.unsqueeze(d)]: a dimension of size 1 inserted at position [d], counted
    from the end when [d] is negative. *)
Definition unsqueeze (d : Z) (x : frame) : result frame :=
  let n := Z.of_nat (ndimension x) in
  let pos := (if d <? 0 then d + n + 1 else d)%Z in
  if ((0 <=? pos) && (pos <=? n))%Z
  then Ok (Frame (take (Z.to_nat pos) (dims x) ++ 1%nat :: drop (Z.to_nat pos) (dims x))
             (dty x) (data x))
  else Raise IndexError.

(** [x.permute(2, 0, 1)] of a rank-3 tensor [H x W x C]: the entry at
    [(c, h, w)] of the result is the entry at [(h, w, c)] of [x]. *)
Definition permute_2_0_1 (x : frame) : result frame :=
  match dims x with
  | [H; W; C] =>
      Ok (Frame [C; H; W] (dty x)
            (c ← seq 0 C; h ← seq 0 H; w ← seq 0 W;
             [nth ((h * W + w) * C + c) (data x) 0%Q]))
  | _ => Raise (RuntimeError "number of dims don't match in permute")
  end.

Definition Qtruncate (q : Q) : Z :=
  if Qltb q 0 then Qceiling q else Qfloor q.

(** [x.to(torch.uint8)]: truncation toward zero, modulo 256. *)
Definition to_uint8 (x : frame) : frame :=
  match dty x with
  | uint8 => x
  | float32 =>
      Frame (dims x) uint8 ((fun q => inject_Z (Qtruncate q mod 256)) <$> data x)
  end.

(** [torch.stack(xs, 0)] is defined for tensors and for tensordicts: it
    needs a non-empty list of operands of one common shape. *)
Class Stackable (T : Type) : Type := {
  stacked : Type;
  congruent : T -> T -> bool;
  pack : T -> list T -> stacked
}.

Definition torch_stack `{Stackable T} (xs : list T) : result stacked :=
  match xs with
  | [] => Raise (RuntimeError "stack expects a non-empty TensorList")
  | x :: rest =>
      if forallb (congruent x) rest then Ok (pack x rest)
      else Raise (RuntimeError "stack expects each tensor to be equal size")
  end.

#[global] Instance frame_stackable : Stackable frame := {|
  stacked := frame;
  congruent := fun a b => bool_decide (dims a = dims b);
  pack := fun x rest =>
    Frame (S (length rest) :: dims x) (dty x) (data x ++ concat (data <$> rest))
|}.

(** A stack of tensordicts: its items in order, along a new first
    dimension. *)
Record stacked_tensordict : Type := StackedTensorDict {
  items : list tensordict
}.

#[global] Instance tensordict_stackable : Stackable tensordict := {|
  stacked := stacked_tensordict;
  congruent := fun a b =>
    bool_decide (batch_size a = batch_size b
                 /\ (shape <$> entries a) = (shape <$> entries b));
  pack := fun x rest => StackedTensorDict (x :: rest)
|}.

(** ["_".join([tag, suffix])] *)
Definition join_tag (tag : string) (suffix : option string) : string :=
  match suffix with
  | None => tag
  | Some s => tag +:+ "_" +:+ s
  end.

(** ** Video recorder *)

Module VideoRecorder.

(** One call of [writer.add_video]. *)
Record video : Type := Video {
  v_tag : string;
  vid_tensor : frame;
  global_step : Z;
  v_kwargs : list (string * Z)
}.

(** The writer is the external sink: it is represented by the calls it has
    received, the latest first. *)
Record t : Type := mk {
  keys : list string;
  video_kwargs : list (string * Z);
  iter : Z;
  skip : Z;
  writer : list video;
  tag : string;
  count : Z;
  obs : list frame
}.

(** [moviepy_found]: whether [import moviepy] succeeds. *)
Definition __init__ (moviepy_found : bool) (writer : list video) (tag : string)
  (keys : option (list string)) (skip : Z) (kwargs : list (string * Z))
  : result t :=
  let keys := match keys with None => ["next_pixels"] | Some k => k end in
  let video_kwargs :=
    filter (fun kv => bool_decide (kv.1 ∉ kwargs.*1)) [("fps", 6%Z)] ++ kwargs in
  if moviepy_found
  then Ok (mk keys video_kwargs 0 skip writer tag 0 [])
  else Raise (Exception "moviepy not found, VideoRecorder cannot be created").

Definition set_count (r : t) (n : Z) : t :=
  mk (keys r) (video_kwargs r) (iter r) (skip r) (writer r) (tag r) n (obs r).

Definition append_obs (r : t) (x : frame) : t :=
  mk (keys r) (video_kwargs r) (iter r) (skip r) (writer r) (tag r) (count r)
     (obs r ++ [x]).

Definition invalid_shape : exn := RuntimeError "Invalid observation shape".

(** The call returns a value or raises, and leaves the recorder in the state
    given as second component. *)
Definition _apply (r : t) (observation : frame) : result frame * t :=
  match last_dim observation with
  | Raise e => (Raise e, r)
  | Ok l =>
    if negb ((l =? 3)%nat || (ndimension observation =? 2)%nat)
    then (Raise invalid_shape, r)
    else
      let r := set_count r (count r + 1) in
      if (skip r =? 0)%Z then (Raise ZeroDivisionError, r)
      else if (count r mod skip r =? 0)%Z then
        let trsf :=
          if (ndimension observation =? 2)%nat then unsqueeze (-3) observation
          else if negb (ndimension observation =? 3)%nat
          then Raise (RuntimeError "observation is expected to have 3 dimensions")
          else if negb (l =? 3)%nat
          then Raise (RuntimeError "observation_trsf is expected to have 3 dimensions")
          else permute_2_0_1 observation in
        match trsf with
        | Raise e => (Raise e, r)
        | Ok y => (Ok observation, append_obs r (to_uint8 y))
        end
      else (Ok observation, r)
  end.

Definition dump (r : t) (suffix : option string) : result unit * t :=
  let tag' := join_tag (tag r) suffix in
  match s ← (torch_stack (obs r) : result frame); unsqueeze 0 s with
  | Raise e => (Raise e, r)
  | Ok clip =>
      (Ok (),
       mk (keys r) (video_kwargs r) (iter r + 1) (skip r)
          (Video tag' clip (iter r) (video_kwargs r) :: writer r)
          (tag r) 0 [])
  end.

(** Not a method of the class: the caller's loop.  The frames are handed to
    [_apply] one after the other; the first exception ends the run. *)
Fixpoint feed (r : t) (frames : list frame) : result unit * t :=
  match frames with
  | [] => (Ok (), r)
  | x :: rest =>
      match _apply r x with
      | (Ok _, r') => feed r' rest
      | (Raise e, r') => (Raise e, r')
      end
  end.

End VideoRecorder.

(** ** Tensordict recorder *)

Module TensorDictRecorder.

(** [tag] is read by [dump]; the constructor of the source file does not
    assign it.  [None] is the missing attribute. *)
Record t : Type := mk {
  keys : list string;
  iter : Z;
  out_file_base : string;
  td : list tensordict;
  skip_reset : bool;
  skip : Z;
  count : Z;
  tag : option string
}.

(** The base class Transform is not among the sources: the value of the
    attribute [tag] after [super().__init__(keys=keys)] is the parameter
    [inherited_tag]. *)
Definition __init__ (inherited_tag : option string) (out_file_base : string)
  (skip_reset : bool) (skip : Z) (keys : option (list string)) : t :=
  let keys := match keys with None => [] | Some k => k end in
  mk keys 0 out_file_base [] skip_reset skip 0 inherited_tag.

(** [td.select] of the recorder's keys followed by [clone()] *)
Definition select (x : tensordict) (ks : list string) : result tensordict :=
  es ← map_result (fun k => v ← get x k; Ok (k, v)) ks;
  Ok (TensorDict (batch_size x) (list_to_map es)).

(** With an empty [keys] the buffer receives the caller's record itself, not
    a copy; the model stores its value at the time of the call. *)
Definition _call (r : t) (x : tensordict) : result tensordict * t :=
  let r := mk (keys r) (iter r) (out_file_base r) (td r) (skip_reset r) (skip r)
              (count r + 1) (tag r) in
  if (skip r =? 0)%Z then (Raise ZeroDivisionError, r)
  else if (count r mod skip r =? 0)%Z then
    match (match keys r with [] => Ok x | ks => select x ks end) with
    | Raise e => (Raise e, r)
    | Ok y =>
        (Ok x, mk (keys r) (iter r) (out_file_base r) (td r ++ [y]) (skip_reset r)
                  (skip r) (count r) (tag r))
    end
  else (Ok x, r).

(** The file system is the map from file names to saved objects. *)
Definition dump (r : t) (fs : gmap string stacked_tensordict)
  (suffix : option string)
  : result unit * t * gmap string stacked_tensordict :=
  match tag r with
  | None => (Raise (AttributeError "tag"), r, fs)
  | Some tg =>
      let tag' := join_tag tg suffix in
      let l := td r in
      let l := if skip_reset r then drop 1 l else l in
      match (torch_stack l : result stacked_tensordict) with
      | Raise e => (Raise e, r, fs)
      | Ok s =>
          (Ok (),
           mk (keys r) (iter r + 1) (out_file_base r) [] (skip_reset r) (skip r)
              0 (tag r),
           <[tag' +:+ "_tensordict.t" := s]> fs)
      end
  end.

End TensorDictRecorder.

(** * Auxiliary definitions *)

Module OUW := OrnsteinUhlenbeckProcessWrapper.
Module OUP := _OrnsteinUhlenbeckProcess.
Module VR := VideoRecorder.
Module TR := TensorDictRecorder.

(** The epsilon of both wrappers follows one recurrence: [lo] is
    [eps_end] and [d] the decrement of a frame. *)
Definition next_eps (lo d e : Q) : Q := py_max lo (e - d).

(** [current_sigma] at one step count: the entry of the tensor that the
    source computes for the one-entry tensor [[[n]]]. *)
Definition current_sigma_at (ou : OUP.t) (n : Z) : Q :=
  match OUP.current_sigma ou (LongTensor [[n]]) with
  | FloatTensor [[s]] => s
  | _ => 0
  end.

(** Entry [(i, j)] of the rows of a tensor. *)
Definition at2 {A} (rows : list (list A)) (i j : nat) : option A :=
  rows !! i ≫= (fun row => row !! j).

(** Entry-wise equality of the rows of two floating tensors. *)
Definition rows_eq (a b : list (list Q)) : Prop := Forall2 (Forall2 Qeq) a b.

(** An oracle for [torch.randn_like]: a floating tensor of the shape of its
    argument. *)
Definition randn_like_shaped (randn_like : tensor -> tensor) : Prop :=
  forall t, exists W, randn_like t = FloatTensor W /\ length <$> W = shape t.

(** The frames that the shape check of the video recorder lets through. *)
Definition shape_ok (x : frame) : Prop :=
  last (dims x) = Some 3%nat \/ ndimension x = 2%nat.

(** The frames that [_apply] can buffer: rank 2, or rank 3 with three
    channels last. *)
Definition bufferable (x : frame) : Prop :=
  ndimension x = 2%nat \/ (ndimension x = 3%nat /\ last (dims x) = Some 3%nat).

(** The dimensions of the buffered copy of a bufferable frame. *)
Definition buffered_dims (d : list nat) : list nat :=
  match d with
  | [H; W] => [1%nat; H; W]
  | [H; W; C] => [C; H; W]
  | _ => d
  end.

(** The conversion applied to the buffered copy. *)
Definition channel_first (x : frame) : result frame :=
  if (ndimension x =? 2)%nat then unsqueeze (-3) x else permute_2_0_1 x.

(** ** Sample inputs *)

Definition idle_policy : TDModule.t := TDModule.mk (fun td => Ok td) ["action"].

Definition sample_ou : OUP.t :=
  OUP.mk 0%Q (2 # 10)%Q 0%Q (2 # 10)%Q (2 # 10)%Q (15 # 100)%Q (1 # 100)%Q
    (OUP.X0Float 0%Q)
    "action" "_ou_prev_noise" "_ou_steps" ["_ou_prev_noise"; "_ou_steps"].

Definition sample_action_record : tensordict :=
  TensorDict 1 {[ "action" := FloatTensor [[1%Q; 2%Q]] ]}.

Definition sample_noise_record : tensordict :=
  TensorDict 1
    (<["action" := FloatTensor [[1%Q; 2%Q]]]>
       (<["_ou_prev_noise" := FloatTensor [[0%Q; 1%Q]]]>
          {[ "_ou_steps" := LongTensor [[3%Z]] ]})).

Definition unit_draws (t : tensor) : tensor :=
  FloatTensor (map2d (fun _ => 1%Q) (to_float t)).

Definition tenth (_ : Q) : Q := (1 # 10)%Q.

Definition gray_frame : frame :=
  Frame [2; 2]%nat float32 [0%Q; 64%Q; 128%Q; 255%Q].

Definition rgb_batch_frame : frame :=
  Frame [1; 1; 1; 3]%nat float32 [10%Q; 20%Q; 30%Q].

Definition snapshot (v : Q) : tensordict :=
  TensorDict 1 {[ "observation" := FloatTensor [[v]] ]}.

(** ** Repeated calls *)

(** Successive calls of [add_sample] on one record, each with its own
    draws and epsilon. *)
Fixpoint add_samples (np_sqrt : Q -> Q) (ou : OUP.t)
  (calls : list ((tensor -> tensor) * Q)) (td : tensordict) : result tensordict :=
  match calls with
  | [] => Ok td
  | (randn_like, eps) :: rest =>
      td' ← OUP.add_sample np_sqrt randn_like ou td eps;
      add_samples np_sqrt ou rest td'
  end.

(** The inputs of the calls whose number is a multiple of [s], the calls
    being numbered from [c + 1]. *)
Fixpoint picks {A} (s c : Z) (xs : list A) : list A :=
  match xs with
  | [] => []
  | x :: rest =>
      if ((c + 1) mod s =? 0)%Z then x :: picks s (c + 1) rest
      else picks s (c + 1) rest
  end.

(** Not a method of the class: the caller's loop over [_call] of the
    tensordict recorder; the first exception ends the run. *)
Fixpoint record_all (r : TR.t) (xs : list tensordict) : result unit * TR.t :=
  match xs with
  | [] => (Ok (), r)
  | x :: rest =>
      match TR._call r x with
      | (Ok _, r') => record_all r' rest
      | (Raise e, r') => (Raise e, r')
      end
  end.

(** The tensordict recorder after [self.count += 1]. *)
Definition TR_advance (t : TR.t) : TR.t :=
  TR.mk (TR.keys t) (TR.iter t) (TR.out_file_base t) (TR.td t)
    (TR.skip_reset t) (TR.skip t) (TR.count t + 1) (TR.tag t).

(** The tensordict recorder after [self.td.append(y)]. *)
Definition TR_append (t : TR.t) (y : tensordict) : TR.t :=
  TR.mk (TR.keys t) (TR.iter t) (TR.out_file_base t) (TR.td t ++ [y])
    (TR.skip_reset t) (TR.skip t) (TR.count t) (TR.tag t).



Definition stale_record : tensordict :=
  TensorDict 1
    (<["action" := FloatTensor [[1%Q; 2%Q]]]>
       {[ "_ou_steps" := LongTensor [[41%Z]] ]}).

(** * Properties *)

(** ** The epsilon schedule *)

Lemma py_max_cases (a b : Q) :
  (a < b /\ py_max a b = b)%Q \/ (b <= a /\ py_max a b = a)%Q.
Proof.
  unfold py_max. destruct (Qcompare_spec a b) as [H|H|H].
  - right. split; [rewrite H; apply Qle_refl | reflexivity].
  - left. split; [exact H | reflexivity].
  - right. split; [apply Qlt_le_weak; exact H | reflexivity].
Qed.


Lemma iter_S {A} (f : A -> A) (k : nat) (x : A) :
  Nat.iter (S k) f x = f (Nat.iter k f x).
Proof. reflexivity. Qed.




Lemma EGreedy_step_eps (w : EGreedyWrapper.t) (k : nat) :
  Nat.iter k EGreedyWrapper.decay w =
  EGreedyWrapper.mk (EGreedyWrapper.td_module w) (EGreedyWrapper.eps_init w)
    (EGreedyWrapper.eps_end w) (EGreedyWrapper.annealing_num_steps w)
    (Nat.iter k
       (next_eps (EGreedyWrapper.eps_end w)
          ((EGreedyWrapper.eps_init w - EGreedyWrapper.eps_end w)
           / inject_Z (EGreedyWrapper.annealing_num_steps w)))
       (EGreedyWrapper.eps w)).
Proof.
  induction k as [|k IH]; [destruct w; reflexivity|].
  rewrite !iter_S, IH. reflexivity.
Qed.


Lemma OU_decay_pos (w : OUW.t) :
  (0 < OUW.annealing_num_steps w)%Z ->
  OUW.decay w =
  Ok (OUW.mk (OUW.td_module w) (OUW.ou w) (OUW.eps_init w) (OUW.eps_end w)
        (OUW.annealing_num_steps w)
        (next_eps (OUW.eps_end w)
           ((OUW.eps_init w - OUW.eps_end w) / inject_Z (OUW.annealing_num_steps w))
           (OUW.eps w))
        (OUW.out_keys w) (OUW.safe w)).
Proof.
  intros Hn. unfold OUW.decay. apply Z.ltb_lt in Hn. rewrite Hn. reflexivity.
Qed.

Lemma OU_step_eps (w : OUW.t) (k : nat) :
  (0 < OUW.annealing_num_steps w)%Z ->
  for_range k OUW.decay w =
  Ok (OUW.mk (OUW.td_module w) (OUW.ou w) (OUW.eps_init w) (OUW.eps_end w)
        (OUW.annealing_num_steps w)
        (Nat.iter k
           (next_eps (OUW.eps_end w)
              ((OUW.eps_init w - OUW.eps_end w) / inject_Z (OUW.annealing_num_steps w)))
           (OUW.eps w))
        (OUW.out_keys w) (OUW.safe w)).
Proof.
  revert w. induction k as [|k IH]; intros w Hn; [destruct w; reflexivity|].
  cbn [for_range]. rewrite OU_decay_pos by exact Hn. cbn [mbind result_bind].
  rewrite IH by exact Hn. cbn [OUW.td_module OUW.ou OUW.eps_init OUW.eps_end
    OUW.annealing_num_steps OUW.eps OUW.out_keys OUW.safe].
  rewrite <- Nat.iter_succ_r. reflexivity.
Qed.

Lemma decrement_nonneg (e0 lo : Q) (n : Z) :
  (lo <= e0)%Q -> (0 < n)%Z -> (0 <= (e0 - lo) / inject_Z n)%Q.
Proof.
  intros Hlo Hn. unfold Qdiv. apply Qmult_le_0_compat; [lra|].
  apply Qinv_le_0_compat. change 0%Q with (inject_Z 0).
  rewrite <- Zle_Qle. lia.
Qed.



Lemma Qltb_lt (a b : Q) : Qltb a b = true <-> (a < b)%Q.
Proof.
  unfold Qltb. destruct (Qcompare_spec a b) as [H|H|H]; split; intros H';
    try discriminate; try reflexivity; try assumption; exfalso; lra.
Qed.

Lemma Qltb_ge (a b : Q) : Qltb a b = false <-> (b <= a)%Q.
Proof.
  pose proof (Qltb_lt a b) as H. destruct (Qltb a b); split; intros H'.
  - discriminate.
  - exfalso. apply (Qlt_irrefl a). eapply Qlt_le_trans; [apply H; reflexivity|exact H'].
  - apply Qnot_lt_le. intros Hlt. apply H in Hlt. discriminate.
  - reflexivity.
Qed.




(** ** Construction *)

(** C5.  Construction with [eps_end > eps_init] raises, for both wrappers;
    with [eps_end <= eps_init] the epsilon-greedy wrapper is created, and
    the Ornstein-Uhlenbeck wrapper does not raise the epsilon-ordering
    error. *)
Theorem epsilon_ordering_checked
  (policy : TDModule.t) (e_init e_end : Q) (n : Z)
  (theta mu sigma dt : Q) (x0 : option tensor) (sigma_min : option Q)
  (n_steps_annealing : Z) (key : string) (safe : bool) :
  ((e_init < e_end)%Q ->
     EGreedyWrapper.__init__ policy e_init e_end n
     = Raise (RuntimeError "eps should decrease over time or be constant")
     /\ raises (OUW.__init__ policy e_init e_end n theta mu sigma dt x0
                  sigma_min n_steps_annealing key safe)
     /\ forall ou,
          OUP.__init__ theta mu sigma dt x0 sigma_min n_steps_annealing key = Ok ou ->
          OUW.__init__ policy e_init e_end n theta mu sigma dt x0 sigma_min
            n_steps_annealing key safe
          = Raise (ValueError "eps should decrease over time or be constant"))
  /\
  ((e_end <= e_init)%Q ->
     EGreedyWrapper.__init__ policy e_init e_end n
     = Ok (EGreedyWrapper.mk policy e_init e_end n e_init)
     /\ OUW.__init__ policy e_init e_end n theta mu sigma dt x0 sigma_min
          n_steps_annealing key safe
        <> Raise (ValueError "eps should decrease over time or be constant")).
Proof.
  unfold EGreedyWrapper.__init__, OUW.__init__, raises. split; intros H.
  - apply Qltb_lt in H. rewrite H. split; [reflexivity|]. split.
    + destruct (OUP.__init__ _ _ _ _ _ _ _ _); cbn; eauto.
    + intros ou ->. reflexivity.
  - apply Qltb_ge in H. rewrite H. split; [reflexivity|].
    destruct (OUP.__init__ _ _ _ _ _ _ _ _) as [ou|e] eqn:Hou; cbn.
    + destruct (bool_decide _); discriminate.
    + unfold OUP.__init__ in Hou. destruct sigma_min as [smin|]; cbn in Hou.
      * destruct (n_steps_annealing =? 0)%Z; cbn in Hou; [|discriminate].
        injection Hou as <-. discriminate.
      * discriminate.
Qed.

Lemma epsilon_ordering_checked_witness :
  EGreedyWrapper.__init__ idle_policy (1 # 10) 1 1000
  = Raise (RuntimeError "eps should decrease over time or be constant")
  /\ OUW.__init__ idle_policy (1 # 10) 1 1000 (15 # 100) 0 (2 # 10) (1 # 100)
       None None 1000 "action" true
     = Raise (ValueError "eps should decrease over time or be constant")
  /\ EGreedyWrapper.__init__ idle_policy 1 (1 # 10) 1000
     = Ok (EGreedyWrapper.mk idle_policy 1 (1 # 10) 1000 1).
Proof.
  pose proof (epsilon_ordering_checked idle_policy (1 # 10) 1 1000
                (15 # 100) 0 (2 # 10) (1 # 100) None None 1000 "action" true)
    as [Hgt _].
  pose proof (epsilon_ordering_checked idle_policy 1 (1 # 10) 1000
                (15 # 100) 0 (2 # 10) (1 # 100) None None 1000 "action" true)
    as [_ Hle].
  destruct (Hgt ltac:(reflexivity)) as (H1 & _ & H2).
  destruct (Hle ltac:(vm_compute; discriminate)) as (H3 & _).
  split; [exact H1|]. split; [|exact H3].
  eapply H2. reflexivity.
Defined.

(** ** The sigma schedule *)







(** ** Tensor arithmetic *)


Lemma zipWithM_ok {A B C} (g : A -> B -> result C) (f : A -> B -> C) xs ys :
  Forall2 (fun x y => g x y = Ok (f x y)) xs ys ->
  zipWithM g xs ys = Ok (zip_with f xs ys).
Proof.
  induction 1 as [|x y xs ys Hxy _ IH]; [reflexivity|].
  cbn. rewrite Hxy. cbn. rewrite IH. reflexivity.
Qed.

Lemma map_result_ok {A C} (g : A -> result C) (f : A -> C) xs :
  Forall (fun x => g x = Ok (f x)) xs -> map_result g xs = Ok (f <$> xs).
Proof.
  induction 1 as [|x xs Hx _ IH]; [reflexivity|].
  cbn. rewrite Hx. cbn. rewrite IH. reflexivity.
Qed.

Lemma broadcast_paired {A B C} (g : A -> B -> result C) (f : A -> B -> C) xs ys :
  Forall2 (fun x y => g x y = Ok (f x y)) xs ys ->
  broadcast g xs ys = Ok (zip_with f xs ys).
Proof.
  intros H. unfold broadcast.
  rewrite (Forall2_length _ _ _ H), Nat.eqb_refl. apply zipWithM_ok, H.
Qed.

Lemma broadcast_single {A B C} (f : A -> B -> C) (x : A) (ys : list B) :
  broadcast (fun x y => Ok (f x y)) [x] ys = Ok (f x <$> ys).
Proof.
  unfold broadcast. destruct (length [x] =? length ys)%nat eqn:E.
  - apply Nat.eqb_eq in E. destruct ys as [|y [|? ?]]; try discriminate. reflexivity.
  - apply map_result_ok. apply Forall_forall. reflexivity.
Qed.

Lemma broadcast2_same_shape {A} (f : A -> A -> A) (a b : list (list A)) :
  length <$> a = length <$> b ->
  broadcast2 f a b = Ok (zip_with (zip_with f) a b).
Proof.
  intros H. apply broadcast_paired.
  revert b H. induction a as [|ra a IH]; intros [|rb b] H; try discriminate;
    constructor.
  - injection H as Hr _. apply broadcast_paired.
    clear -Hr. revert rb Hr. induction ra; intros [|] Hr; try discriminate; constructor; auto.
  - injection H as _ H. apply IH, H.
Qed.

Lemma broadcast2_column {A} (f : A -> A -> A) (ss : list A) (b : list (list A)) :
  length ss = length b ->
  broadcast2 f ((fun s => [s]) <$> ss) b
  = Ok (zip_with (fun s row => f s <$> row) ss b).
Proof.
  intros H. unfold broadcast2.
  rewrite (broadcast_paired _ (fun r row => match r with [s] => f s <$> row | _ => [] end)).
  - f_equal. clear H. revert b. induction ss as [|s ss IH]; intros [|rb b]; cbn; f_equal; auto.
  - revert b H. induction ss as [|s ss IH]; intros [|rb b] H; try discriminate;
      constructor.
    + apply broadcast_single.
    + apply IH. injection H as H. exact H.
Qed.

Lemma at2_map2d {A B} (f : A -> B) (r : list (list A)) i j :
  at2 (map2d f r) i j = f <$> at2 r i j.
Proof.
  unfold at2, map2d. rewrite list_lookup_fmap.
  destruct (r !! i) as [row|]; cbn; [|reflexivity]. apply list_lookup_fmap.
Qed.

Lemma at2_zip_with {A B C} (f : A -> B -> C)
  (a : list (list A)) (b : list (list B)) i j :
  at2 (zip_with (zip_with f) a b) i j
  = x ← at2 a i j; y ← at2 b i j; Some (f x y).
Proof.
  unfold at2. rewrite lookup_zip_with.
  destruct (a !! i) as [ra|]; cbn; [|reflexivity].
  destruct (b !! i) as [rb|]; cbn.
  - rewrite lookup_zip_with. reflexivity.
  - destruct (ra !! j); reflexivity.
Qed.

Lemma at2_zip_column {A B C} (f : A -> B -> C) (ss : list A)
  (b : list (list B)) i j :
  at2 (zip_with (fun s row => f s <$> row) ss b) i j
  = s ← ss !! i; y ← at2 b i j; Some (f s y).
Proof.
  unfold at2. rewrite lookup_zip_with.
  destruct (ss !! i) as [s|]; cbn; [|reflexivity].
  destruct (b !! i) as [rb|]; cbn; [|reflexivity].
  rewrite list_lookup_fmap. destruct (rb !! j); reflexivity.
Qed.

Lemma shape_map2d {A B} (f : A -> B) (r : list (list A)) :
  length <$> map2d f r = length <$> r.
Proof.
  unfold map2d. rewrite <- list_fmap_compose. apply list_fmap_ext.
  intros _ row _. cbn. apply length_fmap.
Qed.

Lemma shape_zip_with {A B C} (f : A -> B -> C)
  (a : list (list A)) (b : list (list B)) :
  length <$> a = length <$> b ->
  length <$> zip_with (zip_with f) a b = length <$> a.
Proof.
  revert b. induction a as [|ra a IH]; intros [|rb b] H; try discriminate;
    [reflexivity|].
  injection H as Hr H. cbn. f_equal; [|apply IH, H].
  rewrite length_zip_with. lia.
Qed.

Lemma shape_zip_column {A B C} (f : A -> B -> C) (ss : list A)
  (b : list (list B)) :
  length ss = length b ->
  length <$> zip_with (fun s row => f s <$> row) ss b = length <$> b.
Proof.
  revert b. induction ss as [|s ss IH]; intros [|rb b] H; try discriminate;
    [reflexivity|].
  cbn. f_equal; [apply length_fmap|]. apply IH. injection H as H. exact H.
Qed.

Lemma map2d_column {A B} (f : A -> B) (ss : list A) :
  map2d f ((fun s => [s]) <$> ss) = (fun s => [s]) <$> (f <$> ss).
Proof.
  unfold map2d. rewrite <- !list_fmap_compose. reflexivity.
Qed.

Lemma tensor_arith_float (fq : Q -> Q -> Q) fz (a b : list (list Q)) :
  length <$> a = length <$> b ->
  tensor_arith fq fz (FloatTensor a) (FloatTensor b)
  = Ok (FloatTensor (zip_with (zip_with fq) a b)).
Proof.
  intros H. unfold tensor_arith. cbn [to_float].
  rewrite broadcast2_same_shape by exact H. reflexivity.
Qed.

Lemma tensor_arith_column (fq : Q -> Q -> Q) fz (ss : list Q) (b : list (list Q)) :
  length ss = length b ->
  tensor_arith fq fz (FloatTensor ((fun s => [s]) <$> ss)) (FloatTensor b)
  = Ok (FloatTensor (zip_with (fun s row => fq s <$> row) ss b)).
Proof.
  intros H. unfold tensor_arith. cbn [to_float].
  rewrite broadcast2_column by exact H. reflexivity.
Qed.

Lemma set__present (td : tensordict) k v old :
  entries td !! k = Some old -> batch_dim v = batch_size td ->
  set_ td k v = Ok (TensorDict (batch_size td) (<[k := v]> (entries td))).
Proof.
  intros Hk Hb. unfold set_. rewrite Hk, Hb, Nat.eqb_refl. reflexivity.
Qed.

Lemma get_present (td : tensordict) k v :
  entries td !! k = Some v -> get td k = Ok v.
Proof. intros H. unfold get. rewrite H. reflexivity. Qed.

Lemma float_scalar_op_float (f : Q -> Q) (r : list (list Q)) :
  float_scalar_op f (FloatTensor r) = FloatTensor (map2d f r).
Proof. reflexivity. Qed.

Lemma float_scalar_op_long (f : Q -> Q) (r : list (list Z)) :
  float_scalar_op f (LongTensor r) = FloatTensor (map2d f (map2d inject_Z r)).
Proof. reflexivity. Qed.

Section AddSample.
Context (np_sqrt : Q -> Q) (randn_like : tensor -> tensor).

Lemma add_sample_explicit (ou : OUP.t) (td : tensordict) (eps q : Q)
  (P A W : list (list Q)) (S : list Z) :
  OUP.x0 ou = OUP.X0Float q ->
  OUP.key ou <> OUP.noise_key ou ->
  OUP.key ou <> OUP.steps_key ou ->
  OUP.noise_key ou <> OUP.steps_key ou ->
  entries td !! OUP.noise_key ou = Some (FloatTensor P) ->
  entries td !! OUP.key ou = Some (FloatTensor A) ->
  entries td !! OUP.steps_key ou = Some (LongTensor ((fun s => [s]) <$> S)) ->
  length <$> A = length <$> P ->
  length S = length P ->
  length P = batch_size td ->
  randn_like (FloatTensor (map2d (fun p => p + q)%Q P)) = FloatTensor W ->
  length <$> W = length <$> P ->
  exists N A',
    OUP.add_sample np_sqrt randn_like ou td eps
    = Ok (TensorDict (batch_size td)
            (<[OUP.steps_key ou := LongTensor ((fun s => [wrap64 (s + 1)]) <$> S)]>
               (<[OUP.key ou := FloatTensor A']>
                  (<[OUP.noise_key ou := FloatTensor N]> (entries td)))))
    /\ length <$> N = length <$> P
    /\ length <$> A' = length <$> P
    /\ forall i j p a s w,
         at2 P i j = Some p -> at2 A i j = Some a -> S !! i = Some s ->
         at2 W i j = Some w ->
         exists n a',
           at2 N i j = Some n /\ at2 A' i j = Some a'
           /\ (n == (p + q) + OUP.theta ou * (OUP.mu ou - (p + q)) * OUP.dt ou
                    + current_sigma_at ou s * np_sqrt (OUP.dt ou) * w - q)%Q
           /\ (a' == a + eps * (n + q))%Q.
Proof.
  intros Hx0 Hkn Hks Hns HP HA HS HshA HlenS HB HW HshW.
  unfold OUP.add_sample. rewrite HP. cbn [mbind result_bind].
  rewrite (get_present _ _ _ HP). cbn [mbind result_bind].
  unfold OUP.add_x0. rewrite Hx0. cbn [mbind result_bind].
  rewrite (get_present _ _ _ HS). cbn [mbind result_bind].
  unfold OUP.current_sigma.
  rewrite float_scalar_op_long, !float_scalar_op_float, HW.
  set (P' := map2d (fun p => (p + q)%Q) P).
  assert (length <$> P' = length <$> P) as HshP' by apply shape_map2d.
  rewrite !map2d_column.
  rewrite (tensor_arith_float Qplus Z.add P') by (rewrite !shape_map2d; reflexivity).
  cbn [mbind result_bind].
  rewrite (tensor_arith_column Qmult Z.mul _ W) by (rewrite !length_fmap; rewrite HlenS;
    rewrite <- (length_fmap length W), HshW, length_fmap; reflexivity).
  cbn [mbind result_bind].
  match goal with |- context [tensor_arith Qplus Z.add (FloatTensor ?a) (FloatTensor ?b)] =>
    set (S1 := a); set (S2 := b) end.
  assert (length <$> S1 = length <$> P) as HshS1.
  { unfold S1. rewrite shape_zip_with; [exact HshP'|]. rewrite !shape_map2d. reflexivity. }
  assert (length <$> S2 = length <$> P) as HshS2.
  { unfold S2. rewrite shape_zip_column; [exact HshW|].
    rewrite !length_fmap, HlenS, <- (length_fmap length W), HshW, length_fmap.
    reflexivity. }
  rewrite tensor_arith_float by congruence. cbn [mbind result_bind].
  set (NZ := zip_with (zip_with Qplus) S1 S2).
  assert (length <$> NZ = length <$> P) as HshNZ.
  { unfold NZ. rewrite shape_zip_with; congruence. }
  rewrite !float_scalar_op_float.
  set (N := map2d (fun p => (p - q)%Q) NZ).
  assert (length <$> N = length <$> P) as HshN.
  { unfold N. rewrite shape_map2d. exact HshNZ. }
  assert (forall X : list (list Q), length <$> X = length <$> P ->
            batch_dim (FloatTensor X) = batch_size td) as Hbd.
  { intros X HX. unfold batch_dim. cbn [shape]. rewrite HX, length_fmap. exact HB. }
  rewrite (set__present _ _ _ _ HP) by (apply Hbd, HshN).
  cbn [mbind result_bind].
  rewrite (get_present _ _ (FloatTensor A))
    by (cbn [entries]; rewrite lookup_insert_ne by congruence; exact HA).
  cbn [mbind result_bind].
  rewrite tensor_arith_float by (rewrite shape_map2d; congruence).
  cbn [mbind result_bind].
  set (A' := zip_with (zip_with Qplus) A (map2d (fun x => (eps * x)%Q) NZ)).
  assert (length <$> A' = length <$> P) as HshA'.
  { unfold A'. rewrite shape_zip_with; [exact HshA|]. rewrite shape_map2d. congruence. }
  rewrite (set__present _ (OUP.key ou) _ (FloatTensor A)); cycle 1.
  { cbn [entries]. rewrite lookup_insert_ne by congruence. exact HA. }
  { cbn [batch_size]. apply Hbd, HshA'. }
  cbn [mbind result_bind entries batch_size].
  erewrite set__present; cycle 1.
  { cbn [entries]. rewrite !lookup_insert_ne by congruence. exact HS. }
  { cbn [batch_size int_scalar_op]. unfold batch_dim. cbn [shape].
    rewrite shape_map2d, !length_fmap. congruence. }
  cbn [entries batch_size int_scalar_op]. rewrite map2d_column.
  rewrite <- list_fmap_compose.
  exists N, A'. split; [reflexivity|]. split; [exact HshN|]. split; [exact HshA'|].
  intros i j p a s w Hp Ha Hs Hw.
  unfold N, A', NZ, S1, S2, P'.
  rewrite ?at2_map2d, ?at2_zip_with, ?at2_zip_column, ?at2_map2d, ?list_lookup_fmap.
  rewrite ?at2_map2d, ?at2_zip_with, ?at2_zip_column, ?at2_map2d, ?list_lookup_fmap.
  rewrite Hp, Ha, Hs, Hw. cbn.
  eexists _, _. split; [reflexivity|]. split; [reflexivity|].
  split; ring.
Qed.

End AddSample.

(** ** The Ornstein-Uhlenbeck sampling step *)

Section Sampling.
Context (np_sqrt : Q -> Q).

(** C2.  One sampling step of a process with the default [x0] on a record
    that holds the action, the previous noise and the step counts: for
    every batch element [i] and component [j], the stored noise becomes
    [p + theta * (mu - p) * dt + current_sigma(s_i) * sqrt(dt) * w] and the
    action becomes [a + eps * noise], [w] being the standard-normal draw. *)
Theorem ou_sampling_step
  (randn_like : tensor -> tensor)
  (theta mu sigma dt : Q) (sigma_min : option Q) (n_steps_annealing : Z)
  (key : string) (ou : OUP.t) (td : tensordict) (eps : Q)
  (P A W : list (list Q)) (S : list Z) :
  OUP.__init__ theta mu sigma dt None sigma_min n_steps_annealing key = Ok ou ->
  key <> "_ou_prev_noise" -> key <> "_ou_steps" ->
  entries td !! OUP.noise_key ou = Some (FloatTensor P) ->
  entries td !! key = Some (FloatTensor A) ->
  entries td !! OUP.steps_key ou = Some (LongTensor ((fun s => [s]) <$> S)) ->
  length <$> A = length <$> P ->
  length S = length P ->
  length P = batch_size td ->
  randn_like (float_scalar_op (fun p => p + 0)%Q (FloatTensor P)) = FloatTensor W ->
  length <$> W = length <$> P ->
  exists td' N' A',
    OUP.add_sample np_sqrt randn_like ou td eps = Ok td'
    /\ entries td' !! OUP.noise_key ou = Some (FloatTensor N')
    /\ entries td' !! key = Some (FloatTensor A')
    /\ forall i j p a s w,
         at2 P i j = Some p -> at2 A i j = Some a -> S !! i = Some s ->
         at2 W i j = Some w ->
         exists n a',
           at2 N' i j = Some n /\ at2 A' i j = Some a'
           /\ (n == p + theta * (mu - p) * dt
                    + current_sigma_at ou s * np_sqrt dt * w)%Q
           /\ (a' == a + eps * n)%Q.
Proof.
  intros Hinit Hk1 Hk2 HP HA HS HshA HlenS HB HW HshW.
  assert (OUP.x0 ou = OUP.X0Float 0 /\ OUP.key ou = key
          /\ OUP.noise_key ou = "_ou_prev_noise" /\ OUP.steps_key ou = "_ou_steps"
          /\ OUP.theta ou = theta /\ OUP.mu ou = mu /\ OUP.dt ou = dt)
    as (Hx0 & Hkey & Hnk & Hsk & Hth & Hmu & Hdt).
  { unfold OUP.__init__ in Hinit.
    destruct sigma_min as [smin|]; cbn in Hinit.
    - destruct (n_steps_annealing =? 0)%Z; cbn in Hinit; [discriminate|].
      injection Hinit as <-. repeat split.
    - injection Hinit as <-. repeat split. }
  destruct (add_sample_explicit np_sqrt randn_like ou td eps 0 P A W S)
    as (N' & A' & Hrun & _ & _ & Hel); try assumption;
    try (rewrite ?Hkey, ?Hnk, ?Hsk; congruence).
  eexists _, N', A'. split; [exact Hrun|]. cbn [entries]. split; [|split].
  - rewrite Hkey, Hnk, Hsk.
    rewrite lookup_insert_ne by discriminate.
    rewrite lookup_insert_ne by exact Hk1.
    apply lookup_insert_eq.
  - rewrite Hkey, Hnk, Hsk.
    rewrite lookup_insert_ne by congruence.
    apply lookup_insert_eq.
  - intros i j p a s w Hp Ha Hs Hw.
    destruct (Hel i j p a s w Hp Ha Hs Hw) as (n & a' & Hn & Ha' & Hneq & Haeq).
    exists n, a'. split; [exact Hn|]. split; [exact Ha'|].
    rewrite Hth, Hmu, Hdt in Hneq. split.
    + rewrite Hneq. ring.
    + rewrite Haeq. ring.
Qed.

End Sampling.

Lemma ou_sampling_step_witness :
  exists td' N' A',
    OUP.add_sample tenth unit_draws sample_ou sample_noise_record (1 # 2) = Ok td'
    /\ entries td' !! "_ou_prev_noise" = Some (FloatTensor N')
    /\ entries td' !! "action" = Some (FloatTensor A')
    /\ exists n a',
         at2 N' 0 1 = Some n /\ at2 A' 0 1 = Some a'
         /\ (n == 1 + (15 # 100) * (0 - 1) * (1 # 100)
                  + current_sigma_at sample_ou 3 * (1 # 10) * 1)%Q
         /\ (a' == 2 + (1 # 2) * n)%Q.
Proof.
  destruct (ou_sampling_step tenth unit_draws (15 # 100) 0 (2 # 10) (1 # 100)
              None 1000 "action" sample_ou sample_noise_record (1 # 2)
              [[0%Q; 1%Q]] [[1%Q; 2%Q]] [[1%Q; 1%Q]] [3%Z])
    as (td' & N' & A' & Hrun & HN & HA & Hel);
    try reflexivity; try discriminate.
  exists td', N', A'. split; [exact Hrun|]. split; [exact HN|]. split; [exact HA|].
  destruct (Hel 0%nat 1%nat 1%Q 2%Q 3%Z 1%Q) as (n & a' & H1 & H2 & H3 & H4);
    try reflexivity.
  exists n, a'. repeat split; assumption.
Defined.

Lemma shape_replicate {A B} (c : B) (a : list (list A)) :
  length <$> ((fun n => replicate n c) <$> (length <$> a)) = length <$> a.
Proof.
  rewrite <- !list_fmap_compose. apply list_fmap_ext.
  intros _ row _. cbn. apply length_replicate.
Qed.

Lemma make_noise_pair_explicit (ou : OUP.t) (td : tensordict) (A : list (list Q)) :
  entries td !! OUP.key ou = Some (FloatTensor A) ->
  length A = batch_size td ->
  OUP._make_noise_pair ou td
  = Ok (TensorDict (batch_size td)
          (<[OUP.steps_key ou := LongTensor (replicate (batch_size td) [0%Z])]>
             (<[OUP.noise_key ou :=
                  FloatTensor ((fun n => replicate n 0%Q) <$> (length <$> A))]>
                (entries td)))).
Proof.
  intros HA HB. unfold OUP._make_noise_pair.
  rewrite (get_present _ _ _ HA). cbn [mbind result_bind].
  unfold set at 2. unfold batch_dim, zeros_like_shape. cbn [shape].
  rewrite !length_fmap, HB, Nat.eqb_refl. cbn [mbind result_bind].
  unfold set, batch_dim, zeros_long. cbn [shape batch_size entries].
  rewrite length_fmap, length_replicate, Nat.eqb_refl. reflexivity.
Qed.

Section Counter.
Context (np_sqrt : Q -> Q).


Lemma add_sample_steps (randn_like : tensor -> tensor) (ou : OUP.t)
  (td : tensordict) (eps q : Q) (P A : list (list Q)) (S : list Z) :
  randn_like_shaped randn_like ->
  OUP.x0 ou = OUP.X0Float q ->
  OUP.key ou <> OUP.noise_key ou ->
  OUP.key ou <> OUP.steps_key ou ->
  OUP.noise_key ou <> OUP.steps_key ou ->
  entries td !! OUP.noise_key ou = Some (FloatTensor P) ->
  entries td !! OUP.key ou = Some (FloatTensor A) ->
  entries td !! OUP.steps_key ou = Some (LongTensor ((fun s => [s]) <$> S)) ->
  length <$> A = length <$> P ->
  length S = length P ->
  length P = batch_size td ->
  exists td' P' A',
    OUP.add_sample np_sqrt randn_like ou td eps = Ok td'
    /\ batch_size td' = batch_size td
    /\ entries td' !! OUP.noise_key ou = Some (FloatTensor P')
    /\ entries td' !! OUP.key ou = Some (FloatTensor A')
    /\ entries td' !! OUP.steps_key ou
       = Some (LongTensor ((fun s => [s]) <$> ((fun s => wrap64 (s + 1)) <$> S)))
    /\ length <$> A' = length <$> P'
    /\ length P' = length P.
Proof.
  intros Hrl Hx0 Hkn Hks Hns HP HA HS HshA HlenS HB.
  destruct (Hrl (FloatTensor (map2d (fun p => p + q)%Q P))) as (W & HW & HshW).
  cbn [shape] in HshW. rewrite shape_map2d in HshW.
  destruct (add_sample_explicit np_sqrt randn_like ou td eps q P A W S)
    as (N' & A' & Hrun & HshN & HshA' & _); try assumption.
  eexists _, N', A'. split; [exact Hrun|]. cbn [entries batch_size].
  split; [reflexivity|]. split; [|split; [|split; [|split]]].
  - rewrite lookup_insert_ne by congruence.
    rewrite lookup_insert_ne by congruence. apply lookup_insert_eq.
  - rewrite lookup_insert_ne by congruence. apply lookup_insert_eq.
  - rewrite lookup_insert_eq. rewrite <- list_fmap_compose. reflexivity.
  - congruence.
  - rewrite <- (length_fmap length N'), HshN, length_fmap. reflexivity.
Qed.

(** C6.  On a record that lacks the bookkeeping keys the first call creates
    the step counter at zero, and each call adds one: after two calls every
    batch element's counter is 2. *)
Theorem ou_step_counter
  (randn_like1 randn_like2 : tensor -> tensor)
  (theta mu sigma dt : Q) (sigma_min : option Q) (n_steps_annealing : Z)
  (key : string) (ou : OUP.t) (td : tensordict) (eps1 eps2 : Q)
  (A : list (list Q)) :
  OUP.__init__ theta mu sigma dt None sigma_min n_steps_annealing key = Ok ou ->
  key <> "_ou_prev_noise" -> key <> "_ou_steps" ->
  randn_like_shaped randn_like1 -> randn_like_shaped randn_like2 ->
  entries td !! OUP.noise_key ou = None ->
  entries td !! OUP.steps_key ou = None ->
  entries td !! key = Some (FloatTensor A) ->
  length A = batch_size td ->
  (exists td0,
      OUP._make_noise_pair ou td = Ok td0
      /\ entries td0 !! OUP.steps_key ou
         = Some (LongTensor (replicate (batch_size td) [0%Z])))
  /\ exists td1 td2,
      OUP.add_sample np_sqrt randn_like1 ou td eps1 = Ok td1
      /\ entries td1 !! OUP.steps_key ou
         = Some (LongTensor (replicate (batch_size td) [1%Z]))
      /\ OUP.add_sample np_sqrt randn_like2 ou td1 eps2 = Ok td2
      /\ entries td2 !! OUP.steps_key ou
         = Some (LongTensor (replicate (batch_size td) [2%Z])).
Proof.
  intros Hinit Hk1 Hk2 Hr1 Hr2 Hnone _ HA HB.
  assert (OUP.x0 ou = OUP.X0Float 0 /\ OUP.key ou = key
          /\ OUP.noise_key ou = "_ou_prev_noise" /\ OUP.steps_key ou = "_ou_steps")
    as (Hx0 & Hkey & Hnk & Hsk).
  { unfold OUP.__init__ in Hinit.
    destruct sigma_min as [smin|]; cbn in Hinit.
    - destruct (n_steps_annealing =? 0)%Z; cbn in Hinit; [discriminate|].
      injection Hinit as <-. repeat split.
    - injection Hinit as <-. repeat split. }
  rewrite <- Hkey in HA.
  assert (OUP.key ou <> OUP.noise_key ou) as Hkn by congruence.
  assert (OUP.key ou <> OUP.steps_key ou) as Hks by congruence.
  assert (OUP.noise_key ou <> OUP.steps_key ou) as Hns
    by (rewrite Hnk, Hsk; discriminate).
  pose proof (make_noise_pair_explicit ou td A HA HB) as Hmk.
  set (td0 := TensorDict (batch_size td)
                (<[OUP.steps_key ou := LongTensor (replicate (batch_size td) [0%Z])]>
                   (<[OUP.noise_key ou :=
                        FloatTensor ((fun n => replicate n 0%Q) <$> (length <$> A))]>
                      (entries td)))) in *.
  split.
  { exists td0. split; [exact Hmk|]. apply lookup_insert_eq. }
  assert (forall rl e, OUP.add_sample np_sqrt rl ou td e
                       = OUP.add_sample np_sqrt rl ou td0 e) as Hlazy.
  { intros rl e.
    assert (entries td0 !! OUP.noise_key ou
            = Some (FloatTensor ((fun n => replicate n 0%Q) <$> (length <$> A))))
      as Hn0.
    { unfold td0. cbn [entries]. rewrite lookup_insert_ne by congruence.
      apply lookup_insert_eq. }
    unfold OUP.add_sample. rewrite Hnone, Hmk, Hn0. reflexivity. }
  destruct (add_sample_steps randn_like1 ou td0 eps1 0
              ((fun n => replicate n 0%Q) <$> (length <$> A)) A
              (replicate (batch_size td) 0%Z))
    as (td1 & P1 & A1 & Hrun1 & Hb1 & HP1 & HA1 & HS1 & Hsh1 & Hlen1);
    try assumption.
  { unfold td0. cbn [entries]. rewrite lookup_insert_ne by congruence.
    apply lookup_insert_eq. }
  { unfold td0. cbn [entries]. rewrite !lookup_insert_ne by congruence. exact HA. }
  { unfold td0. cbn [entries]. rewrite lookup_insert_eq, fmap_replicate. reflexivity. }
  { symmetry. apply shape_replicate. }
  { rewrite length_replicate, !length_fmap. congruence. }
  { rewrite !length_fmap. exact HB. }
  destruct (add_sample_steps randn_like2 ou td1 eps2 0 P1 A1
              ((fun s => wrap64 (s + 1)) <$> replicate (batch_size td) 0%Z))
    as (td2 & P2 & A2 & Hrun2 & Hb2 & HP2 & HA2 & HS2 & Hsh2 & Hlen2);
    try assumption.
  { rewrite length_fmap, length_replicate, Hlen1, !length_fmap. congruence. }
  { rewrite Hlen1, !length_fmap, Hb1. exact HB. }
  exists td1, td2. rewrite Hlazy. split; [exact Hrun1|].
  split; [|split; [exact Hrun2|]].
  - rewrite HS1, !fmap_replicate. reflexivity.
  - rewrite HS2, !fmap_replicate. reflexivity.
Qed.

End Counter.

Lemma ou_step_counter_witness :
  exists td1 td2,
    OUP.add_sample tenth unit_draws sample_ou sample_action_record 1 = Ok td1
    /\ OUP.add_sample tenth unit_draws sample_ou td1 1 = Ok td2
    /\ entries td2 !! "_ou_steps" = Some (LongTensor [[2%Z]]).
Proof.
  assert (randn_like_shaped unit_draws) as Hshaped.
  { intros t. eexists. split; [reflexivity|]. unfold map2d.
    rewrite <- list_fmap_compose. destruct t as [r|r]; cbn [shape to_float].
    - apply list_fmap_ext. intros _ row _. cbn. apply length_fmap.
    - unfold map2d. rewrite <- list_fmap_compose.
      apply list_fmap_ext. intros _ row _. cbn. rewrite !length_fmap. reflexivity. }
  destruct (ou_step_counter tenth unit_draws unit_draws (15 # 100) 0 (2 # 10)
              (1 # 100) None 1000 "action" sample_ou sample_action_record 1 1
              [[1%Q; 2%Q]])
    as (_ & td1 & td2 & H1 & _ & H2 & H3);
    try reflexivity; try discriminate; try exact Hshaped.
  exists td1, td2. split; [exact H1|]. split; [exact H2 | exact H3].
Defined.

(** ** The epsilon-greedy forward pass *)


Lemma blend_row (c : Q) (o r x : list Q) :
  length r = length o ->
  Forall2 (fun v ro => v == c * ro.1 + (1 - c) * ro.2)%Q x (zip r o) ->
  (c == 0)%Q \/ (c == 1)%Q ->
  Forall2 Qeq x (if Qeq_bool c 0 then o else r).
Proof.
  intros Hlen Hx Hc. revert r Hlen x Hx.
  induction o as [|o0 o IH]; intros [|r0 r] Hlen x Hx; try discriminate.
  - inversion Hx. destruct (Qeq_bool c 0); constructor.
  - cbn in Hx. inversion Hx as [|v ? x' ? Hv Hx']; subst. cbn in Hv.
    injection Hlen as Hlen. specialize (IH r Hlen x' Hx').
    destruct (Qeq_bool c 0) eqn:E.
    + apply Qeq_bool_eq in E. constructor; [|exact IH]. rewrite Hv, E. ring.
    + destruct Hc as [Hc|Hc].
      * apply Qeq_eq_bool in Hc. congruence.
      * constructor; [|exact IH]. rewrite Hv, Hc. ring.
Qed.

Lemma blend_zip_row (c : Q) (o r : list Q) :
  length r = length o ->
  Forall2 (fun v ro => v == c * ro.1 + (1 - c) * ro.2)%Q
    (zip_with Qplus (zip_with Qmult (replicate (length o) c) r)
       (zip_with Qmult ((fun q => 1 - q)%Q <$> replicate (length o) c) o))
    (zip r o).
Proof.
  revert r. induction o as [|o0 o IH]; intros [|r0 r] Hlen; try discriminate;
    cbn; constructor.
  - cbn. reflexivity.
  - apply IH. injection Hlen as Hlen. exact Hlen.
Qed.

Lemma blend_rows (c : Q) (Out R : list (list Q)) :
  length <$> R = length <$> Out ->
  (c == 0)%Q \/ (c == 1)%Q ->
  let C := (fun n => replicate n c) <$> (length <$> Out) in
  rows_eq
    (zip_with (zip_with Qplus) (zip_with (zip_with Qmult) C R)
       (zip_with (zip_with Qmult) (map2d (fun q => 1 - q)%Q C) Out))
    (if Qeq_bool c 0 then Out else R).
Proof.
  intros Hsh Hc. cbn zeta. revert R Hsh.
  induction Out as [|o Out IH]; intros [|r R] Hsh; try discriminate.
  - destruct (Qeq_bool c 0); constructor.
  - injection Hsh as Hr Hsh. specialize (IH R Hsh). cbn.
    pose proof (blend_row c o r _ Hr (blend_zip_row c o r Hr) Hc) as Hrow.
    destruct (Qeq_bool c 0); constructor; assumption.
Qed.

Lemma cond_constant (eps : Q) (b : bool) (us : list Q) :
  Forall (fun u => Qltb u eps = b) us ->
  (fun u => Qltb u eps) <$> us = replicate (length us) b.
Proof.
  induction 1 as [|u us Hu _ IH]; [reflexivity|]. cbn. rewrite Hu, IH. reflexivity.
Qed.

Lemma zip_with_replicate_l {A B C} (f : A -> B -> C) (x : A) (ys : list B) :
  zip_with f (replicate (length ys) x) ys = f x <$> ys.
Proof. induction ys as [|y ys IH]; [reflexivity|]. cbn. rewrite IH. reflexivity. Qed.

(** C4.  In random or unset exploration mode, on a floating action: with
    [eps = 0] the action of every batch element is the policy's, with
    [eps = 1] (the uniform draws being in [[0, 1)]) it is the random action
    drawn from the spec. *)
Theorem egreedy_extremes
  (w : EGreedyWrapper.t) (mode : option string) (rand : nat -> list Q)
  (spec_rand : nat -> tensor) (td td1 : tensordict) (k : string)
  (others : list string) (Out R : list (list Q)) :
  random_or_unset mode = true ->
  TDModule.forward (EGreedyWrapper.td_module w) td = Ok td1 ->
  TDModule.out_keys (EGreedyWrapper.td_module w) = k :: others ->
  entries td1 !! k = Some (FloatTensor Out) ->
  length Out = batch_size td1 ->
  length (rand (batch_size td1)) = batch_size td1 ->
  Forall (fun u => 0 <= u < 1)%Q (rand (batch_size td1)) ->
  spec_rand (batch_size td1) = FloatTensor R ->
  length <$> R = length <$> Out ->
  ((EGreedyWrapper.eps w == 0)%Q ->
     exists Out',
       EGreedyWrapper.forward w mode rand spec_rand td
       = Ok (TensorDict (batch_size td1) (<[k := FloatTensor Out']> (entries td1)))
       /\ rows_eq Out' Out)
  /\
  ((EGreedyWrapper.eps w == 1)%Q ->
     exists Out',
       EGreedyWrapper.forward w mode rand spec_rand td
       = Ok (TensorDict (batch_size td1) (<[k := FloatTensor Out']> (entries td1)))
       /\ rows_eq Out' R).
Proof.
  intros Hmode Hfwd Hkeys Hout HB Hlen Hu HR Hsh.
  assert (forall (b : bool),
            Forall (fun u => Qltb u (EGreedyWrapper.eps w) = b) (rand (batch_size td1)) ->
            let c := (if b then 1 else 0)%Q in
            EGreedyWrapper.forward w mode rand spec_rand td
            = Ok (TensorDict (batch_size td1)
                    (<[k := FloatTensor
                         (zip_with (zip_with Qplus)
                            (zip_with (zip_with Qmult)
                               ((fun n => replicate n c) <$> (length <$> Out)) R)
                            (zip_with (zip_with Qmult)
                               (map2d (fun q => 1 - q)%Q
                                  ((fun n => replicate n c) <$> (length <$> Out)))
                               Out))]> (entries td1)))) as Hrun.
  { intros b Hb c. unfold EGreedyWrapper.forward.
    rewrite Hfwd. cbn [mbind result_bind]. rewrite Hmode, Hkeys.
    cbn [first mbind result_bind]. rewrite (get_present _ _ _ Hout).
    cbn [mbind result_bind]. rewrite (cond_constant _ b _ Hb), Hlen, HR.
    unfold cond_as, expand_as_right, batch_dim. cbn [shape].
    rewrite !length_fmap, length_replicate, HB, Nat.eqb_refl.
    cbn [fmap result_fmap mbind result_bind]. rewrite fmap_replicate.
    rewrite <- HB, <- (length_fmap length Out), zip_with_replicate_l.
    fold c.
    set (C := (fun n => replicate n c) <$> (length <$> Out)).
    assert (length <$> C = length <$> Out) as HshC.
    { apply shape_replicate. }
    rewrite (tensor_arith_float Qmult Z.mul C R) by congruence.
    cbn [mbind result_bind int_scalar_op].
    rewrite (tensor_arith_float Qmult Z.mul _ Out) by (rewrite shape_map2d; exact HshC).
    cbn [mbind result_bind].
    match goal with |- context [tensor_arith Qplus Z.add (FloatTensor ?a) (FloatTensor ?b)] =>
      set (X1 := a); set (X2 := b) end.
    assert (length <$> X1 = length <$> Out) as HX1
      by (unfold X1; rewrite shape_zip_with; congruence).
    assert (length <$> X2 = length <$> Out) as HX2
      by (unfold X2; rewrite shape_zip_with; rewrite shape_map2d; congruence).
    rewrite tensor_arith_float by congruence.
    cbn [mbind result_bind]. unfold set, batch_dim. cbn [shape].
    rewrite shape_zip_with by congruence.
    rewrite HX1, length_fmap, HB, Nat.eqb_refl. reflexivity. }
  split; intros Heps.
  - eexists. split.
    + apply (Hrun false). eapply Forall_impl; [exact Hu|].
      intros u [Hu0 _]. cbn. apply Qltb_ge. rewrite Heps. exact Hu0.
    + apply (blend_rows 0 Out R Hsh). left. reflexivity.
  - eexists. split.
    + apply (Hrun true). eapply Forall_impl; [exact Hu|].
      intros u [_ Hu1]. cbn. apply Qltb_lt. rewrite Heps. exact Hu1.
    + apply (blend_rows 1 Out R Hsh). right. reflexivity.
Qed.

Lemma egreedy_extremes_witness :
  (exists Out',
     EGreedyWrapper.forward (EGreedyWrapper.mk idle_policy 0 0 1000 0) None
       (fun n => replicate n (1 # 2)%Q)
       (fun n => FloatTensor (replicate n [7%Q; 7%Q])) sample_action_record
     = Ok (TensorDict 1
             (<["action" := FloatTensor Out']> (entries sample_action_record)))
     /\ rows_eq Out' [[1%Q; 2%Q]])
  /\ (exists Out',
     EGreedyWrapper.forward (EGreedyWrapper.mk idle_policy 1 1 1000 1)
       (Some "random") (fun n => replicate n (1 # 2)%Q)
       (fun n => FloatTensor (replicate n [7%Q; 7%Q])) sample_action_record
     = Ok (TensorDict 1
             (<["action" := FloatTensor Out']> (entries sample_action_record)))
     /\ rows_eq Out' [[7%Q; 7%Q]]).
Proof.
  assert (Forall (fun u => 0 <= u < 1)%Q [(1 # 2)%Q]) as Hu.
  { repeat constructor; vm_compute; congruence. }
  split.
  - destruct (egreedy_extremes (EGreedyWrapper.mk idle_policy 0 0 1000 0) None
                (fun n => replicate n (1 # 2)%Q)
                (fun n => FloatTensor (replicate n [7%Q; 7%Q]))
                sample_action_record sample_action_record "action" []
                [[1%Q; 2%Q]] [[7%Q; 7%Q]]) as [H _];
      try reflexivity; try exact Hu.
    apply H. reflexivity.
  - destruct (egreedy_extremes (EGreedyWrapper.mk idle_policy 1 1 1000 1)
                (Some "random") (fun n => replicate n (1 # 2)%Q)
                (fun n => FloatTensor (replicate n [7%Q; 7%Q]))
                sample_action_record sample_action_record "action" []
                [[1%Q; 2%Q]] [[7%Q; 7%Q]]) as [_ H];
      try reflexivity; try exact Hu.
    apply H. reflexivity.
Defined.

(** ** The video recorder *)


Lemma dims_to_uint8 (x : frame) : dims (to_uint8 x) = dims x.
Proof. unfold to_uint8. destruct (dty x); reflexivity. Qed.

Lemma dty_to_uint8 (x : frame) : dty (to_uint8 x) = uint8.
Proof. unfold to_uint8. destruct (dty x) eqn:E; [reflexivity | exact E]. Qed.

Lemma apply_invalid (r : VR.t) (x : frame) :
  ~ shape_ok x ->
  VR._apply r x = (Raise VR.invalid_shape, r)
  \/ (dims x = [] /\ VR._apply r x = (Raise IndexError, r)).
Proof.
  intros Hbad. unfold VR._apply, last_dim.
  destruct (last (dims x)) as [l|] eqn:Hl.
  - left. destruct (l =? 3)%nat eqn:E3.
    + apply Nat.eqb_eq in E3. subst l. exfalso. apply Hbad. left. exact Hl.
    + destruct (ndimension x =? 2)%nat eqn:E2.
      * apply Nat.eqb_eq in E2. exfalso. apply Hbad. right. exact E2.
      * reflexivity.
  - right. split; [|reflexivity]. apply last_None. exact Hl.
Qed.

Lemma apply_shape_ok (r : VR.t) (x : frame) :
  shape_ok x -> (VR._apply r x).1 <> Raise VR.invalid_shape.
Proof.
  intros Hok. unfold VR._apply, last_dim.
  destruct (last (dims x)) as [l|] eqn:Hl.
  - assert ((l =? 3)%nat || (ndimension x =? 2)%nat = true) as ->.
    { destruct Hok as [H|H].
      - assert (l = 3%nat) as -> by congruence. reflexivity.
      - rewrite H. apply orb_true_r. }
    cbn [negb].
    destruct (VR.skip _ =? 0)%Z; [discriminate|].
    destruct (_ =? 0)%Z; [|discriminate].
    destruct (ndimension x =? 2)%nat.
    + unfold unsqueeze. destruct (_ && _); discriminate.
    + destruct (negb _); [discriminate|].
      destruct (negb _); [discriminate|].
      unfold permute_2_0_1.
      destruct (dims x) as [|? [|? [|? [|? ?]]]]; discriminate.
  - discriminate.
Qed.

Lemma apply_returns_input (r r' : VR.t) (x y : frame) :
  VR._apply r x = (Ok y, r') -> y = x.
Proof.
  unfold VR._apply. destruct (last_dim x) as [l|e]; [|discriminate].
  destruct (negb _); [discriminate|].
  destruct (VR.skip _ =? 0)%Z; [discriminate|].
  destruct (_ =? 0)%Z; [|congruence].
  destruct (if (ndimension x =? 2)%nat then _ else _); [congruence|discriminate].
Qed.


Lemma channel_first_bufferable (x : frame) :
  bufferable x ->
  exists y, channel_first x = Ok y /\ dims y = buffered_dims (dims x).
Proof.
  unfold bufferable, channel_first, ndimension.
  intros [H2|[H3 Hl]].
  - rewrite H2. cbn. destruct (dims x) as [|H [|W [|? ?]]] eqn:E; try discriminate.
    unfold unsqueeze, ndimension. rewrite E. cbn. eexists. split; reflexivity.
  - rewrite H3. cbn. destruct (dims x) as [|H [|W [|C [|? ?]]]] eqn:E; try discriminate.
    unfold permute_2_0_1. rewrite E. eexists. split; reflexivity.
Qed.

Lemma apply_bufferable (r : VR.t) (x : frame) :
  bufferable x -> VR.skip r <> 0%Z ->
  exists y,
    channel_first x = Ok y
    /\ VR._apply r x
       = (Ok x,
          if ((VR.count r + 1) mod VR.skip r =? 0)%Z
          then VR.append_obs (VR.set_count r (VR.count r + 1)) (to_uint8 y)
          else VR.set_count r (VR.count r + 1)).
Proof.
  intros Hb Hskip. destruct (channel_first_bufferable x Hb) as (y & Hy & _).
  exists y. split; [exact Hy|].
  unfold VR._apply, last_dim.
  assert (exists l, last (dims x) = Some l
                    /\ ((l =? 3)%nat || (ndimension x =? 2)%nat = true)
                    /\ ((ndimension x =? 2)%nat = false ->
                        negb (ndimension x =? 3)%nat = false
                        /\ negb (l =? 3)%nat = false))
    as (l & -> & -> & Hl).
  { destruct Hb as [H2|[H3 Hl]].
    - destruct (last (dims x)) as [l|] eqn:E.
      + exists l. rewrite H2. split; [reflexivity|]. split; [apply orb_true_r|].
        discriminate.
      + apply last_None in E. unfold ndimension in H2. rewrite E in H2. discriminate.
    - exists 3%nat. split; [exact Hl|]. split; [reflexivity|].
      intros _. rewrite H3. split; reflexivity. }
  cbn [negb VR.skip VR.count VR.set_count].
  apply Z.eqb_neq in Hskip. rewrite Hskip.
  destruct ((VR.count r + 1) mod VR.skip r =? 0)%Z; [|reflexivity].
  unfold channel_first in Hy.
  destruct (ndimension x =? 2)%nat eqn:E2.
  - rewrite Hy. reflexivity.
  - destruct (Hl eq_refl) as [-> ->]. rewrite Hy. reflexivity.
Qed.

Lemma half_step (c : Z) :
  ((c + 1) / 2 - c / 2 = if (c + 1) mod 2 =? 0 then 1 else 0)%Z.
Proof.
  destruct ((c + 1) mod 2 =? 0)%Z eqn:E.
  - apply Z.eqb_eq in E.
    pose proof (Z.div_mod (c + 1) 2 ltac:(lia)).
    pose proof (Z.div_mod c 2 ltac:(lia)).
    pose proof (Z.mod_pos_bound c 2 ltac:(lia)). lia.
  - apply Z.eqb_neq in E.
    pose proof (Z.div_mod (c + 1) 2 ltac:(lia)).
    pose proof (Z.div_mod c 2 ltac:(lia)).
    pose proof (Z.mod_pos_bound c 2 ltac:(lia)).
    pose proof (Z.mod_pos_bound (c + 1) 2 ltac:(lia)). lia.
Qed.

Lemma feed_skip2 (frames : list frame) :
  forall r : VR.t,
    Forall bufferable frames -> VR.skip r = 2%Z ->
    exists r' new,
      VR.feed r frames = (Ok (), r')
      /\ VR.skip r' = 2%Z
      /\ VR.count r' = (VR.count r + Z.of_nat (length frames))%Z
      /\ VR.iter r' = VR.iter r
      /\ VR.writer r' = VR.writer r
      /\ VR.tag r' = VR.tag r
      /\ VR.video_kwargs r' = VR.video_kwargs r
      /\ VR.obs r' = VR.obs r ++ new
      /\ Z.of_nat (length new)
         = ((VR.count r + Z.of_nat (length frames)) / 2 - VR.count r / 2)%Z
      /\ Forall (fun y => dty y = uint8
                          /\ exists x, x ∈ frames /\ dims y = buffered_dims (dims x))
           new.
Proof.
  induction frames as [|x frames IH]; intros r Hall Hskip.
  - exists r, []. cbn. rewrite app_nil_r, Z.add_0_r, Z.sub_diag.
    repeat split; try assumption; constructor.
  - apply Forall_cons in Hall as [Hx Hall].
    destruct (apply_bufferable r x Hx ltac:(lia)) as (y & Hy & Happ).
    destruct (channel_first_bufferable x Hx) as (y' & Hy' & Hdims).
    assert (y' = y) as -> by congruence.
    cbn [VR.feed]. rewrite Happ.
    set (r1 := if ((VR.count r + 1) mod VR.skip r =? 0)%Z
               then VR.append_obs (VR.set_count r (VR.count r + 1)) (to_uint8 y)
               else VR.set_count r (VR.count r + 1)).
    assert (VR.skip r1 = 2%Z /\ VR.count r1 = (VR.count r + 1)%Z
            /\ VR.iter r1 = VR.iter r /\ VR.writer r1 = VR.writer r
            /\ VR.tag r1 = VR.tag r /\ VR.video_kwargs r1 = VR.video_kwargs r
            /\ VR.obs r1 = VR.obs r ++
                 (if ((VR.count r + 1) mod 2 =? 0)%Z then [to_uint8 y] else []))
      as (Hs1 & Hc1 & Hi1 & Hw1 & Ht1 & Hk1 & Ho1).
    { unfold r1. rewrite Hskip.
      destruct ((VR.count r + 1) mod 2 =? 0)%Z; cbn;
        rewrite ?app_nil_r; repeat split; exact Hskip. }
    destruct (IH r1 Hall Hs1)
      as (r' & new & Hfeed & Hs & Hc & Hi & Hw & Ht & Hk & Ho & Hlen & Hnew).
    exists r', ((if ((VR.count r + 1) mod 2 =? 0)%Z then [to_uint8 y] else []) ++ new).
    split; [exact Hfeed|]. split; [exact Hs|].
    split; [rewrite Hc, Hc1; cbn [length]; lia|].
    split; [congruence|]. split; [congruence|]. split; [congruence|].
    split; [congruence|].
    split; [rewrite Ho, Ho1, app_assoc; reflexivity|]. split.
    + rewrite length_app, Nat2Z.inj_add, Hlen, Hc1. cbn [length].
      rewrite Nat2Z.inj_succ.
      replace (VR.count r + 1 + Z.of_nat (length frames))%Z
        with (VR.count r + Z.succ (Z.of_nat (length frames)))%Z by lia.
      pose proof (half_step (VR.count r)) as Hh.
      destruct ((VR.count r + 1) mod 2 =? 0)%Z; cbn [length]; lia.
    + apply Forall_app. split.
      * destruct ((VR.count r + 1) mod 2 =? 0)%Z; constructor; [|constructor].
        split; [apply dty_to_uint8|]. exists x. split; [left|].
        rewrite dims_to_uint8. exact Hdims.
      * eapply Forall_impl; [exact Hnew|]. cbn.
        intros z (Hz & x' & Hin & Hd). split; [exact Hz|].
        exists x'. split; [right; exact Hin | exact Hd].
Qed.

Lemma unsqueeze_front (x : frame) :
  unsqueeze 0 x = Ok (Frame (1%nat :: dims x) (dty x) (data x)).
Proof.
  unfold unsqueeze. cbn.
  assert ((0 <=? Z.of_nat (ndimension x))%Z = true) as -> by (apply Z.leb_le; lia).
  rewrite take_0, drop_0. reflexivity.
Qed.

Lemma stack_same_dims (d : list nat) (x : frame) (rest : list frame) :
  Forall (fun y => dims y = d) (x :: rest) ->
  exists clip : frame,
    (torch_stack (x :: rest) : result frame) = Ok clip
    /\ dims clip = S (length rest) :: d.
Proof.
  intros H. apply Forall_cons in H as [Hx Hrest]. cbn.
  assert (forallb (fun b : frame => bool_decide (dims x = dims b)) rest = true) as ->.
  { apply forallb_forall. intros y Hy. apply bool_decide_eq_true.
    rewrite Forall_forall in Hrest. rewrite Hx.
    symmetry. apply Hrest. apply list_elem_of_In. exact Hy. }
  eexists. split; [reflexivity|]. cbn. rewrite Hx. reflexivity.
Qed.

(** C7 (as amended).  A recorder with [skip = 2] fed [N] frames of rank 2,
    or of rank 3 with three channels last, holds [N / 2] frames; when
    [N >= 2] and the frames have one common shape, [dump] then hands the
    clip to the writer, empties the buffer and sets the counter to zero. *)
Theorem video_buffer_skip2
  (writer : list VR.video) (tag : string) (keys : option (list string))
  (kwargs : list (string * Z)) (frames : list frame) :
  Forall bufferable frames ->
  exists r0 r,
    VR.__init__ true writer tag keys 2 kwargs = Ok r0
    /\ VR.feed r0 frames = (Ok (), r)
    /\ length (VR.obs r) = (length frames / 2)%nat
    /\ VR.count r = Z.of_nat (length frames)
    /\ forall (d : list nat) (suffix : option string),
         (2 <= length frames)%nat ->
         Forall (fun x => dims x = d) frames ->
         exists r' clip,
           VR.dump r suffix = (Ok (), r')
           /\ VR.obs r' = []
           /\ VR.count r' = 0%Z
           /\ VR.iter r' = 1%Z
           /\ VR.writer r'
              = VR.Video (join_tag tag suffix) clip 0 (VR.video_kwargs r0) :: writer
           /\ dims clip = 1%nat :: (length frames / 2)%nat :: buffered_dims d.
Proof.
  intros Hall. eexists. 
  destruct (feed_skip2 frames
              (VR.mk (match keys with None => ["next_pixels"] | Some k => k end)
                 (filter (fun kv => bool_decide (kv.1 ∉ kwargs.*1)) [("fps", 6%Z)]
                  ++ kwargs) 0 2 writer tag 0 []) Hall eq_refl)
    as (r & new & Hfeed & Hs & Hc & Hi & Hw & Ht & Hk & Ho & Hlen & Hnew).
  cbn [VR.count VR.obs VR.iter VR.writer VR.tag VR.video_kwargs app] in *.
  rewrite Z.add_0_l in Hc, Hlen. change (0 / 2)%Z with 0%Z in Hlen.
  rewrite Z.sub_0_r in Hlen.
  assert (length new = (length frames / 2)%nat) as Hlen'.
  { apply Nat2Z.inj. rewrite Hlen, Nat2Z.inj_div. reflexivity. }
  exists r. split; [reflexivity|]. split; [exact Hfeed|].
  split; [rewrite Ho; exact Hlen'|]. split; [exact Hc|].
  intros d suffix HN Hd.
  assert (Forall (fun y => dims y = buffered_dims d) new) as Hdims.
  { eapply Forall_impl; [exact Hnew|]. cbn. intros y (_ & x & Hin & Hy).
    rewrite Forall_forall in Hd. rewrite Hy, (Hd x Hin). reflexivity. }
  destruct new as [|y rest].
  { exfalso. cbn [length] in Hlen'.
    assert (0 < 2 <= length frames)%nat as Hpos by lia.
    apply Nat.div_str_pos in Hpos. lia. }
  destruct (stack_same_dims _ y rest Hdims) as (clip & Hclip & Hcd).
  unfold VR.dump. rewrite Ho, Hclip. cbn [mbind result_bind].
  rewrite unsqueeze_front. eexists _, _. split; [reflexivity|].
  cbn [VR.obs VR.count VR.iter VR.writer dims]. cbn [length] in Hlen'.
  rewrite Hi, Hw, Ht, Hk, Hcd, Hlen'. repeat split.
Qed.

Lemma video_buffer_skip2_witness :
  exists r0 r r' clip,
    VR.__init__ true [] "video" None 2 [] = Ok r0
    /\ VR.feed r0 [gray_frame; gray_frame; gray_frame; gray_frame; gray_frame]
       = (Ok (), r)
    /\ length (VR.obs r) = 2%nat
    /\ VR.dump r None = (Ok (), r')
    /\ VR.obs r' = [] /\ VR.count r' = 0%Z
    /\ VR.writer r' = [VR.Video "video" clip 0 [("fps", 6%Z)]]
    /\ dims clip = [1; 2; 1; 2; 2]%nat.
Proof.
  destruct (video_buffer_skip2 [] "video" None []
              [gray_frame; gray_frame; gray_frame; gray_frame; gray_frame])
    as (r0 & r & Hinit & Hfeed & Hlen & _ & Hdump).
  { repeat constructor. }
  destruct (Hdump [2; 2]%nat None) as (r' & clip & Hd & Ho & Hc & _ & Hw & Hcl).
  { cbn. lia. }
  { repeat constructor. }
  exists r0, r, r', clip. split; [exact Hinit|]. split; [exact Hfeed|].
  split; [exact Hlen|]. split; [exact Hd|]. split; [exact Ho|].
  split; [exact Hc|]. split; [|exact Hcl].
  rewrite Hw. injection Hinit as <-. reflexivity.
Defined.

(** C7, as stated, fails.  After one frame the buffer is empty: [dump]
    raises and the counter stays at 1.  And frames of rank 4 with three
    channels last pass the shape check but cannot be buffered: the second
    one raises and the buffer stays empty. *)
Lemma dump_of_empty_buffer_raises :
  (exists r0 r,
     VR.__init__ true [] "video" None 2 [] = Ok r0
     /\ VR.feed r0 [gray_frame] = (Ok (), r)
     /\ length (VR.obs r) = (1 / 2)%nat
     /\ (VR.dump r None).1 = Raise (RuntimeError "stack expects a non-empty TensorList")
     /\ VR.count (VR.dump r None).2 = 1%Z)
  /\ (exists r0 r,
     VR.__init__ true [] "video" None 2 [] = Ok r0
     /\ shape_ok rgb_batch_frame
     /\ VR.feed r0 [rgb_batch_frame; rgb_batch_frame]
        = (Raise (RuntimeError "observation is expected to have 3 dimensions"), r)
     /\ length (VR.obs r) = 0%nat
     /\ (2 / 2)%nat = 1%nat).
Proof.
  split; eexists _, _; (split; [reflexivity|]).
  - cbn. repeat split.
  - split; [left; reflexivity|]. cbn. repeat split.
Qed.

(** C9.  A frame that is neither of rank 2 nor has a last dimension of size
    3 makes [_apply] raise on that call, whatever the counter and [skip],
    and leaves the recorder as it was; a frame of rank 2 or with three
    channels last never gets the shape-validation error. *)
Theorem video_shape_validation (r : VR.t) (x : frame) :
  (ndimension x <> 2%nat -> last (dims x) <> Some 3%nat ->
     (VR._apply r x).2 = r
     /\ ((VR._apply r x).1 = Raise VR.invalid_shape
         \/ (dims x = [] /\ (VR._apply r x).1 = Raise IndexError)))
  /\
  (ndimension x = 2%nat \/ last (dims x) = Some 3%nat ->
     (VR._apply r x).1 <> Raise VR.invalid_shape).
Proof.
  split.
  - intros H2 H3.
    destruct (apply_invalid r x) as [H|[Hd H]].
    + intros [H|H]; contradiction.
    + rewrite H. split; [reflexivity|]. left. reflexivity.
    + rewrite H. split; [reflexivity|]. right. split; [exact Hd | reflexivity].
  - intros H. apply apply_shape_ok. destruct H; [right|left]; assumption.
Qed.

Lemma video_shape_validation_witness :
  VR._apply (VR.mk ["next_pixels"] [("fps", 6%Z)] 0 2 [] "video" 0 [])
    (Frame [4; 5]%nat float32 [])
  <> (Raise VR.invalid_shape,
      VR.mk ["next_pixels"] [("fps", 6%Z)] 0 2 [] "video" 0 [])
  /\ (VR._apply (VR.mk ["next_pixels"] [("fps", 6%Z)] 0 2 [] "video" 0 [])
        (Frame [4; 5; 1]%nat float32 [])).1
     = Raise VR.invalid_shape.
Proof.
  pose proof (video_shape_validation
                (VR.mk ["next_pixels"] [("fps", 6%Z)] 0 2 [] "video" 0 [])
                (Frame [4; 5]%nat float32 [])) as [_ Hok].
  pose proof (video_shape_validation
                (VR.mk ["next_pixels"] [("fps", 6%Z)] 0 2 [] "video" 0 [])
                (Frame [4; 5; 1]%nat float32 [])) as [Hbad _].
  split.
  - intros H. apply Hok; [left; reflexivity|]. rewrite H. reflexivity.
  - destruct Hbad as (_ & [H|[H _]]); [discriminate | discriminate | exact H | discriminate H].
Defined.

(** C10.  Whenever [_apply] returns, it returns the observation it was
    given; it does return for every frame of rank 2, or of rank 3 with
    three channels last (with a non-zero [skip]); the channel-first 8-bit
    copy goes to the buffer only. *)
Theorem video_apply_returns_input (r : VR.t) (x : frame) :
  (forall y r', VR._apply r x = (Ok y, r') -> y = x)
  /\
  (bufferable x -> VR.skip r <> 0%Z ->
     exists r', VR._apply r x = (Ok x, r')
       /\ (VR.obs r' = VR.obs r
           \/ exists y, channel_first x = Ok y
                        /\ VR.obs r' = VR.obs r ++ [to_uint8 y]
                        /\ dims (to_uint8 y) = buffered_dims (dims x)
                        /\ dty (to_uint8 y) = uint8)).
Proof.
  split.
  - intros y r'. apply apply_returns_input.
  - intros Hb Hskip.
    destruct (apply_bufferable r x Hb Hskip) as (y & Hy & Happ).
    destruct (channel_first_bufferable x Hb) as (y' & Hy' & Hd).
    assert (y' = y) as -> by congruence.
    eexists. split; [exact Happ|].
    destruct ((VR.count r + 1) mod VR.skip r =? 0)%Z; [right|left; reflexivity].
    exists y. split; [exact Hy|]. split; [reflexivity|].
    rewrite dims_to_uint8, dty_to_uint8. split; [exact Hd | reflexivity].
Qed.

Lemma video_apply_returns_input_witness :
  exists r',
    VR._apply (VR.mk ["next_pixels"] [("fps", 6%Z)] 0 2 [] "video" 1 []) gray_frame
    = (Ok gray_frame, r').
Proof.
  destruct (video_apply_returns_input
              (VR.mk ["next_pixels"] [("fps", 6%Z)] 0 2 [] "video" 1 []) gray_frame)
    as [_ H].
  destruct H as (r' & Hr & _); [left; reflexivity | discriminate |].
  exists r'. exact Hr.
Defined.

(** ** The tensordict recorder *)




(** Without a [tag] attribute [dump] raises before it reads the buffer. *)
Lemma dump_without_tag (r : TR.t) (fs : gmap string stacked_tensordict)
  (suffix : option string) :
  TR.tag r = None ->
  TR.dump r fs suffix = (Raise (AttributeError "tag"), r, fs).
Proof. intros H. unfold TR.dump. rewrite H. reflexivity. Qed.

(** * Further properties *)

(** ** Epsilon steps *)

Lemma for_range_add {St} (body : St -> result St) (n m : nat) (s : St) :
  for_range (n + m) body s = for_range n body s ≫= for_range m body.
Proof.
  revert s. induction n as [|n IH]; intros s; [reflexivity|].
  cbn [Nat.add for_range]. destruct (body s) as [s'|e]; cbn; [apply IH | reflexivity].
Qed.

(** X1.  Steps add up: [step(a)] followed by [step(b)] is [step(a + b)]
    for non-negative frame counts, for both wrappers (for the
    Ornstein-Uhlenbeck wrapper also when a step raises). *)
Theorem step_composes (w : EGreedyWrapper.t) (v : OUW.t) (a b : Z) :
  (0 <= a)%Z -> (0 <= b)%Z ->
  EGreedyWrapper.step (EGreedyWrapper.step w a) b = EGreedyWrapper.step w (a + b)
  /\ (OUW.step v a ≫= fun v' => OUW.step v' b) = OUW.step v (a + b).
Proof.
  intros Ha Hb. unfold EGreedyWrapper.step, OUW.step.
  rewrite Z2Nat.inj_add by assumption. split.
  - rewrite (Nat.add_comm (Z.to_nat a)). apply eq_sym, Nat.iter_add.
  - symmetry. apply for_range_add.
Qed.

Lemma step_composes_witness :
  EGreedyWrapper.step
    (EGreedyWrapper.step (EGreedyWrapper.mk idle_policy 1 (1 # 10) 1000 1) 3) 4
  = EGreedyWrapper.step (EGreedyWrapper.mk idle_policy 1 (1 # 10) 1000 1) 7.
Proof.
  apply (step_composes (EGreedyWrapper.mk idle_policy 1 (1 # 10) 1000 1)
           (OUW.mk idle_policy sample_ou 1 (1 # 10) 1000 1 [] true) 3 4); lia.
Defined.

Lemma OU_decay_nonpos (v : OUW.t) :
  (OUW.annealing_num_steps v <= 0)%Z ->
  OUW.decay v
  = Raise (ValueError "step() called with a non-positive annealing_num_steps").
Proof.
  intros Hn. unfold OUW.decay.
  assert ((0 <? OUW.annealing_num_steps v)%Z = false) as -> by (apply Z.ltb_ge; lia).
  reflexivity.
Qed.

(** X2.  [step] of the Ornstein-Uhlenbeck wrapper raises exactly when the
    annealing horizon is not positive and at least one frame is asked for;
    the exception is then the [ValueError] of the guard.  A call with no
    frame returns the wrapper as it is, whatever the horizon. *)
Theorem ou_step_guard (v : OUW.t) (frames : Z) :
  (raises (OUW.step v frames)
   <-> (OUW.annealing_num_steps v <= 0)%Z /\ (1 <= frames)%Z)
  /\ (forall e, OUW.step v frames = Raise e ->
        e = ValueError "step() called with a non-positive annealing_num_steps")
  /\ ((frames <= 0)%Z -> OUW.step v frames = Ok v).
Proof.
  unfold OUW.step, raises.
  destruct (Z.to_nat frames) as [|k] eqn:Hk.
  - assert (frames <= 0)%Z as Hf by lia. cbn. split; [|split].
    + split; [intros [e He]; discriminate | lia].
    + discriminate.
    + reflexivity.
  - assert (1 <= frames)%Z as Hf by lia.
    destruct (Z.ltb_spec 0 (OUW.annealing_num_steps v)) as [Hn|Hn].
    + rewrite OU_step_eps by exact Hn. split; [|split].
      * split; [intros [e He]; discriminate | lia].
      * discriminate.
      * lia.
    + cbn [for_range]. rewrite OU_decay_nonpos by exact Hn.
      cbn. split; [|split].
      * split; [intros _; lia | eauto].
      * intros e He. congruence.
      * lia.
Qed.








Lemma next_eps_floor (lo d e : Q) : (lo <= next_eps lo d e)%Q.
Proof.
  unfold next_eps. destruct (py_max_cases lo (e - d)) as [[H ->]|[H ->]]; lra.
Qed.

Lemma next_eps_iter_range (lo d e : Q) (k : nat) :
  (0 <= d)%Q -> (lo <= e)%Q ->
  (lo <= Nat.iter k (next_eps lo d) e <= e)%Q.
Proof.
  intros Hd Hlo. induction k as [|k IH]; [cbn; lra|].
  rewrite iter_S. set (x := Nat.iter k (next_eps lo d) e) in *.
  pose proof (next_eps_floor lo d x).
  split; [assumption|]. unfold next_eps.
  destruct (py_max_cases lo (x - d)) as [[H1 ->]|[H1 ->]]; lra.
Qed.

(** X22.  The floor holds from any state of the epsilon-greedy wrapper, not
    only a fresh one: with a non-zero horizon, after at least one frame
    epsilon is at least [eps_end], even if it was below before; and with a
    positive horizon and [eps_end <= eps_init], an epsilon that is at
    least [eps_end] stays so and never increases. *)
Theorem egreedy_step_floor (w : EGreedyWrapper.t) (frames : Z) :
  (EGreedyWrapper.annealing_num_steps w <> 0%Z -> (1 <= frames)%Z ->
     (EGreedyWrapper.eps_end w
      <= EGreedyWrapper.eps (EGreedyWrapper.step w frames))%Q)
  /\ ((0 < EGreedyWrapper.annealing_num_steps w)%Z ->
      (EGreedyWrapper.eps_end w <= EGreedyWrapper.eps_init w)%Q ->
      (EGreedyWrapper.eps_end w <= EGreedyWrapper.eps w)%Q ->
      (EGreedyWrapper.eps_end w
       <= EGreedyWrapper.eps (EGreedyWrapper.step w frames)
       <= EGreedyWrapper.eps w)%Q).
Proof.
  unfold EGreedyWrapper.step. rewrite EGreedy_step_eps. cbn [EGreedyWrapper.eps].
  split.
  - intros _ Hf. destruct (Z.to_nat frames) as [|k] eqn:Hk; [lia|].
    rewrite iter_S. apply next_eps_floor.
  - intros Hn Hle Hcur. apply next_eps_iter_range; [|exact Hcur].
    apply decrement_nonneg; assumption.
Qed.

(** ** Forward passes *)

Lemma shape_expand {A B} (conds : list A) (a : list (list B)) :
  length conds = length a ->
  length <$> zip_with (fun c n => replicate n c) conds (length <$> a)
  = length <$> a.
Proof.
  revert conds. induction a as [|o a IH]; intros [|c conds] Hlc; try discriminate;
    [reflexivity|].
  cbn. rewrite length_replicate. f_equal. apply IH. injection Hlc as Hlc. exact Hlc.
Qed.

(** X5.  The epsilon-greedy choice is made per batch element: on a floating
    action, in random or unset mode, row [i] of the written action is the
    random action's row when the element's uniform draw is below epsilon,
    and the policy's row otherwise. *)
Theorem egreedy_selects_per_element
  (w : EGreedyWrapper.t) (mode : option string) (rand : nat -> list Q)
  (spec_rand : nat -> tensor) (td td1 : tensordict) (k : string)
  (others : list string) (Out R : list (list Q)) :
  random_or_unset mode = true ->
  TDModule.forward (EGreedyWrapper.td_module w) td = Ok td1 ->
  TDModule.out_keys (EGreedyWrapper.td_module w) = k :: others ->
  entries td1 !! k = Some (FloatTensor Out) ->
  length Out = batch_size td1 ->
  length (rand (batch_size td1)) = batch_size td1 ->
  spec_rand (batch_size td1) = FloatTensor R ->
  length <$> R = length <$> Out ->
  exists Out',
    EGreedyWrapper.forward w mode rand spec_rand td
    = Ok (TensorDict (batch_size td1) (<[k := FloatTensor Out']> (entries td1)))
    /\ length Out' = length Out
    /\ forall i u o r,
         rand (batch_size td1) !! i = Some u ->
         Out !! i = Some o -> R !! i = Some r ->
         exists o',
           Out' !! i = Some o'
           /\ Forall2 Qeq o' (if Qltb u (EGreedyWrapper.eps w) then r else o).
Proof.
  intros Hmode Hfwd Hkeys Hout HB Hlen HR Hsh.
  set (conds := (fun b : bool => if b then 1%Q else 0%Q)
                  <$> ((fun u => Qltb u (EGreedyWrapper.eps w))
                         <$> rand (batch_size td1))).
  set (C := zip_with (fun c n => replicate n c) conds (length <$> Out)).
  assert (length conds = length Out) as Hlc
    by (unfold conds; rewrite !length_fmap; congruence).
  assert (length <$> C = length <$> Out) as HshC.
  { apply shape_expand, Hlc. }
  set (X1 := zip_with (zip_with Qmult) C R).
  set (X2 := zip_with (zip_with Qmult) (map2d (fun q => 1 - q)%Q C) Out).
  assert (length <$> X1 = length <$> Out) as HX1
    by (unfold X1; rewrite shape_zip_with; congruence).
  assert (length <$> X2 = length <$> Out) as HX2
    by (unfold X2; rewrite shape_zip_with; rewrite shape_map2d; congruence).
  exists (zip_with (zip_with Qplus) X1 X2). split; [|split].
  - unfold EGreedyWrapper.forward.
    rewrite Hfwd. cbn [mbind result_bind]. rewrite Hmode, Hkeys.
    cbn [first mbind result_bind]. rewrite (get_present _ _ _ Hout).
    cbn [mbind result_bind]. rewrite HR.
    unfold cond_as, expand_as_right, batch_dim. cbn [shape].
    fold conds. rewrite Hlc, length_fmap, Nat.eqb_refl.
    cbn [fmap result_fmap mbind result_bind]. fold C.
    rewrite (tensor_arith_float Qmult Z.mul C R) by congruence.
    cbn [mbind result_bind int_scalar_op].
    rewrite (tensor_arith_float Qmult Z.mul _ Out) by (rewrite shape_map2d; exact HshC).
    cbn [mbind result_bind]. fold X1 X2.
    rewrite tensor_arith_float by congruence.
    cbn [mbind result_bind]. unfold set, batch_dim. cbn [shape].
    rewrite shape_zip_with by congruence.
    rewrite HX1, length_fmap, HB, Nat.eqb_refl. reflexivity.
  - rewrite <- (length_fmap length), shape_zip_with, HX1, length_fmap by congruence.
    reflexivity.
  - intros i u o r Hu Ho Hr.
    assert (C !! i = Some (replicate (length o)
                             (if Qltb u (EGreedyWrapper.eps w) then 1%Q else 0%Q)))
      as HC.
    { unfold C, conds. rewrite lookup_zip_with, !list_lookup_fmap, Hu, Ho.
      reflexivity. }
    assert (length r = length o) as Hro.
    { assert ((length <$> R) !! i = (length <$> Out) !! i) as H by (rewrite Hsh; reflexivity).
      rewrite !list_lookup_fmap, Hr, Ho in H. injection H as H. exact H. }
    eexists. split.
    + unfold X1, X2, map2d.
      rewrite !lookup_zip_with, list_lookup_fmap, HC, Hr, Ho. reflexivity.
    + set (c := if Qltb u (EGreedyWrapper.eps w) then 1%Q else 0%Q).
      pose proof (blend_row c o r _ Hro (blend_zip_row c o r Hro)) as Hb.
      unfold c in *. destruct (Qltb u (EGreedyWrapper.eps w)).
      * apply Hb. right. reflexivity.
      * apply Hb. left. reflexivity.
Qed.

Lemma egreedy_selects_per_element_witness :
  exists Out',
    EGreedyWrapper.forward (EGreedyWrapper.mk idle_policy 1 (1 # 10) 1000 (1 # 2))
      None (fun _ => [(1 # 4)%Q; (3 # 4)%Q])
      (fun n => FloatTensor (replicate n [7%Q; 7%Q]))
      (TensorDict 2 {[ "action" := FloatTensor [[1%Q; 2%Q]; [3%Q; 4%Q]] ]})
    = Ok (TensorDict 2 {[ "action" := FloatTensor Out' ]})
    /\ rows_eq Out' [[7%Q; 7%Q]; [3%Q; 4%Q]].
Proof.
  destruct (egreedy_selects_per_element
              (EGreedyWrapper.mk idle_policy 1 (1 # 10) 1000 (1 # 2))
              None (fun _ => [(1 # 4)%Q; (3 # 4)%Q])
              (fun n => FloatTensor (replicate n [7%Q; 7%Q]))
              (TensorDict 2 {[ "action" := FloatTensor [[1%Q; 2%Q]; [3%Q; 4%Q]] ]})
              (TensorDict 2 {[ "action" := FloatTensor [[1%Q; 2%Q]; [3%Q; 4%Q]] ]})
              "action" [] [[1%Q; 2%Q]; [3%Q; 4%Q]] [[7%Q; 7%Q]; [7%Q; 7%Q]])
    as (Out' & Hrun & Hlen & Hrows); try reflexivity.
  exists Out'. split.
  - rewrite Hrun. cbn [batch_size entries]. rewrite insert_singleton_eq. reflexivity.
  - destruct (Hrows 0%nat (1 # 4)%Q [1%Q; 2%Q] [7%Q; 7%Q]) as (o0 & H0 & E0);
      try reflexivity.
    destruct (Hrows 1%nat (3 # 4)%Q [3%Q; 4%Q] [7%Q; 7%Q]) as (o1 & H1 & E1);
      try reflexivity.
    destruct Out' as [|a [|b [|? ?]]]; try discriminate.
    cbn in H0, H1. injection H0 as ->. injection H1 as ->.
    constructor; [exact E0|]. constructor; [exact E1|]. constructor.
Defined.

(** X6.  Outside random mode the wrappers add nothing: when the
    exploration mode is a string other than ["random"], [forward] of either
    wrapper is the policy's [forward]; and in every mode a failure of the
    policy is the failure of the wrapper. *)
Theorem forward_without_exploration
  (np_sqrt : Q -> Q) (randn_like : tensor -> tensor) (rand : nat -> list Q)
  (spec_rand : nat -> tensor)
  (w : EGreedyWrapper.t) (v : OUW.t) (mode : option string) (td : tensordict) :
  (forall s, mode = Some s -> s <> "random" ->
     EGreedyWrapper.forward w mode rand spec_rand td
     = TDModule.forward (EGreedyWrapper.td_module w) td
     /\ OUW.forward np_sqrt randn_like v mode td
        = TDModule.forward (OUW.td_module v) td)
  /\ (forall e, TDModule.forward (EGreedyWrapper.td_module w) td = Raise e ->
        EGreedyWrapper.forward w mode rand spec_rand td = Raise e)
  /\ (forall e, TDModule.forward (OUW.td_module v) td = Raise e ->
        OUW.forward np_sqrt randn_like v mode td = Raise e).
Proof.
  unfold EGreedyWrapper.forward, OUW.forward. split; [|split].
  - intros s -> Hs. cbn [random_or_unset].
    rewrite bool_decide_eq_false_2 by exact Hs.
    split.
    + destruct (TDModule.forward (EGreedyWrapper.td_module w) td); reflexivity.
    + destruct (TDModule.forward (OUW.td_module v) td); reflexivity.
  - intros e ->. reflexivity.
  - intros e ->. reflexivity.
Qed.

(** X23.  Errors of the epsilon-greedy [forward] in random or unset mode:
    a policy without output keys gives [IndexError], and a policy whose
    first output key is not in the record it returns gives [KeyError] for
    that key. *)
Theorem egreedy_forward_errors
  (w : EGreedyWrapper.t) (mode : option string) (rand : nat -> list Q)
  (spec_rand : nat -> tensor) (td td1 : tensordict) :
  random_or_unset mode = true ->
  TDModule.forward (EGreedyWrapper.td_module w) td = Ok td1 ->
  (TDModule.out_keys (EGreedyWrapper.td_module w) = [] ->
     EGreedyWrapper.forward w mode rand spec_rand td = Raise IndexError)
  /\ (forall k others,
        TDModule.out_keys (EGreedyWrapper.td_module w) = k :: others ->
        entries td1 !! k = None ->
        EGreedyWrapper.forward w mode rand spec_rand td = Raise (KeyError k)).
Proof.
  intros Hmode Hfwd. unfold EGreedyWrapper.forward.
  rewrite Hfwd. cbn [mbind result_bind]. rewrite Hmode. split.
  - intros ->. reflexivity.
  - intros k others -> Hk. cbn [first mbind result_bind]. unfold get.
    rewrite Hk. reflexivity.
Qed.

Lemma egreedy_forward_errors_witness :
  EGreedyWrapper.forward
    (EGreedyWrapper.mk (TDModule.mk (fun td => Ok td) ["logits"]) 1 (1 # 10) 1000 1)
    None (fun n => replicate n 0%Q) (fun n => FloatTensor (replicate n [0%Q]))
    sample_action_record
  = Raise (KeyError "logits").
Proof.
  destruct (egreedy_forward_errors
              (EGreedyWrapper.mk (TDModule.mk (fun td => Ok td) ["logits"])
                 1 (1 # 10) 1000 1)
              None (fun n => replicate n 0%Q)
              (fun n => FloatTensor (replicate n [0%Q]))
              sample_action_record sample_action_record eq_refl eq_refl)
    as [_ H].
  apply (H "logits" []); reflexivity.
Defined.

(** ** Construction and sigma of the Ornstein-Uhlenbeck process *)

(** X7.  Construction of the Ornstein-Uhlenbeck wrapper.  With a
    [sigma_min] and [n_steps_annealing = 0] the process cannot be built:
    [ZeroDivisionError], before the epsilon check is reached.  A policy
    output key that repeats, or is one of the two bookkeeping keys, makes
    construction fail.  A wrapper that is returned starts at [eps_init],
    with ordered epsilons, and lists the policy's keys followed by the two
    bookkeeping keys, all distinct. *)
Theorem ou_wrapper_construction
  (policy : TDModule.t) (e_init e_end : Q) (n : Z)
  (theta mu sigma dt : Q) (x0 : option tensor) (sigma_min : option Q)
  (N : Z) (key : string) (safe : bool) :
  (is_Some sigma_min -> N = 0%Z ->
     OUW.__init__ policy e_init e_end n theta mu sigma dt x0 sigma_min N key safe
     = Raise ZeroDivisionError)
  /\ (~ NoDup (TDModule.out_keys policy ++ ["_ou_prev_noise"; "_ou_steps"]) ->
      raises (OUW.__init__ policy e_init e_end n theta mu sigma dt x0 sigma_min
                N key safe))
  /\ (forall w,
        OUW.__init__ policy e_init e_end n theta mu sigma dt x0 sigma_min N key safe
        = Ok w ->
        (e_end <= e_init)%Q
        /\ OUW.eps w = e_init /\ OUW.eps_init w = e_init /\ OUW.eps_end w = e_end
        /\ OUW.annealing_num_steps w = n
        /\ OUW.out_keys w = TDModule.out_keys policy ++ ["_ou_prev_noise"; "_ou_steps"]
        /\ NoDup (OUW.out_keys w)
        /\ OUP.key (OUW.ou w) = key
        /\ OUP.noise_key (OUW.ou w) = "_ou_prev_noise"
        /\ OUP.steps_key (OUW.ou w) = "_ou_steps").
Proof.
  assert (forall ou, OUP.__init__ theta mu sigma dt x0 sigma_min N key = Ok ou ->
            OUP.out_keys ou = ["_ou_prev_noise"; "_ou_steps"]
            /\ OUP.key ou = key /\ OUP.noise_key ou = "_ou_prev_noise"
            /\ OUP.steps_key ou = "_ou_steps") as Hou.
  { intros ou Hinit. unfold OUP.__init__ in Hinit.
    destruct sigma_min as [smin|]; cbn in Hinit.
    - destruct (N =? 0)%Z; cbn in Hinit; [discriminate|].
      injection Hinit as <-. repeat split.
    - injection Hinit as <-. repeat split. }
  unfold OUW.__init__, raises. split; [|split].
  - intros [smin ->] ->. reflexivity.
  - intros Hdup.
    destruct (OUP.__init__ _ _ _ _ _ _ _ _) as [ou|e] eqn:Hinit; cbn; [|eauto].
    destruct (Hou ou eq_refl) as (Hk & _). rewrite Hk.
    destruct (Qltb e_init e_end); [eauto|].
    rewrite bool_decide_eq_false_2 by exact Hdup. eauto.
  - intros w Hw.
    destruct (OUP.__init__ _ _ _ _ _ _ _ _) as [ou|e] eqn:Hinit; cbn in Hw;
      [|discriminate].
    destruct (Hou ou eq_refl) as (Hk & Hkey & Hnk & Hsk). rewrite Hk in Hw.
    destruct (Qltb e_init e_end) eqn:Hord; [discriminate|].
    destruct (bool_decide _) eqn:Hnd; [|discriminate].
    apply bool_decide_eq_true in Hnd. apply Qltb_ge in Hord.
    injection Hw as <-. cbn. repeat split; assumption.
Qed.





(** ** Bookkeeping of the Ornstein-Uhlenbeck process *)


Section Bookkeeping.
Context (np_sqrt : Q -> Q).

(** X9.  Missing keys.  A record with neither the noise key nor the action
    key makes [add_sample] raise [KeyError] for the action key; a record
    that has the noise key but not the step-counter key makes it raise
    [KeyError] for the step-counter key (default [x0]): the counter is
    only created together with the noise. *)
Theorem add_sample_missing_keys
  (randn_like : tensor -> tensor) (ou : OUP.t) (td : tensordict) (eps : Q) :
  (entries td !! OUP.noise_key ou = None ->
   entries td !! OUP.key ou = None ->
   OUP.add_sample np_sqrt randn_like ou td eps = Raise (KeyError (OUP.key ou)))
  /\
  (forall q, OUP.x0 ou = OUP.X0Float q ->
   is_Some (entries td !! OUP.noise_key ou) ->
   entries td !! OUP.steps_key ou = None ->
   OUP.add_sample np_sqrt randn_like ou td eps
   = Raise (KeyError (OUP.steps_key ou))).
Proof.
  split.
  - intros Hn Hk. unfold OUP.add_sample, OUP._make_noise_pair, get.
    rewrite Hn, Hk. reflexivity.
  - intros q Hx0 [P HP] Hs. unfold OUP.add_sample, OUP.add_x0.
    rewrite HP, Hx0. cbn [mbind result_bind].
    rewrite (get_present _ _ _ HP). cbn [mbind result_bind].
    unfold get. rewrite Hs. reflexivity.
Qed.

Lemma add_sample_first_call (randn_like : tensor -> tensor) (ou : OUP.t)
  (td : tensordict) (eps q : Q) (A : list (list Q)) :
  randn_like_shaped randn_like ->
  OUP.x0 ou = OUP.X0Float q ->
  OUP.key ou <> OUP.noise_key ou ->
  OUP.key ou <> OUP.steps_key ou ->
  OUP.noise_key ou <> OUP.steps_key ou ->
  entries td !! OUP.noise_key ou = None ->
  entries td !! OUP.key ou = Some (FloatTensor A) ->
  length A = batch_size td ->
  exists N' A',
    OUP.add_sample np_sqrt randn_like ou td eps
    = Ok (TensorDict (batch_size td)
            (<[OUP.steps_key ou := LongTensor (replicate (batch_size td) [1%Z])]>
               (<[OUP.key ou := FloatTensor A']>
                  (<[OUP.noise_key ou := FloatTensor N']> (entries td)))))
    /\ length <$> N' = length <$> A
    /\ length <$> A' = length <$> A.
Proof.
  intros Hrl Hx0 Hkn Hks Hns Hnone HA HB.
  pose proof (make_noise_pair_explicit ou td A HA HB) as Hmk.
  set (P0 := (fun n => replicate n 0%Q) <$> (length <$> A)) in *.
  set (td0 := TensorDict (batch_size td)
                (<[OUP.steps_key ou := LongTensor (replicate (batch_size td) [0%Z])]>
                   (<[OUP.noise_key ou := FloatTensor P0]> (entries td)))) in *.
  assert (entries td0 !! OUP.noise_key ou = Some (FloatTensor P0)) as Hn0.
  { unfold td0. cbn [entries]. rewrite lookup_insert_ne by congruence.
    apply lookup_insert_eq. }
  assert (OUP.add_sample np_sqrt randn_like ou td eps
          = OUP.add_sample np_sqrt randn_like ou td0 eps) as Hlazy.
  { unfold OUP.add_sample. rewrite Hnone, Hmk, Hn0. reflexivity. }
  assert (length <$> P0 = length <$> A) as HshP0 by apply shape_replicate.
  destruct (Hrl (FloatTensor (map2d (fun p => p + q)%Q P0))) as (W & HW & HshW).
  cbn [shape] in HshW. rewrite shape_map2d in HshW.
  destruct (add_sample_explicit np_sqrt randn_like ou td0 eps q P0 A W
              (replicate (batch_size td) 0%Z))
    as (N' & A' & Hrun & HshN & HshA' & _); try assumption.
  { unfold td0. cbn [entries]. rewrite !lookup_insert_ne by congruence. exact HA. }
  { unfold td0. cbn [entries]. rewrite lookup_insert_eq, fmap_replicate. reflexivity. }
  { congruence. }
  { rewrite length_replicate, <- (length_fmap length P0), HshP0, length_fmap.
    congruence. }
  { rewrite <- (length_fmap length P0), HshP0, length_fmap. exact HB. }
  exists N', A'. rewrite Hlazy, Hrun. unfold td0. cbn [batch_size entries].
  split; [|split; congruence].
  f_equal. f_equal. rewrite fmap_replicate.
  apply map_eq. intros k. rewrite !lookup_insert.
  repeat case_decide; try congruence; try reflexivity.
Qed.

(** X10.  A record that has lost its noise key restarts: whatever step
    counter it still carries is overwritten, and after the call the
    counter of every batch element is 1.  The call adds the two
    bookkeeping keys, rewrites the action and leaves every other entry
    and the batch size as they were. *)
Theorem add_sample_restarts_counter
  (randn_like : tensor -> tensor) (ou : OUP.t) (td : tensordict) (eps q : Q)
  (A : list (list Q)) (stale : tensor) :
  randn_like_shaped randn_like ->
  OUP.x0 ou = OUP.X0Float q ->
  OUP.key ou <> OUP.noise_key ou ->
  OUP.key ou <> OUP.steps_key ou ->
  OUP.noise_key ou <> OUP.steps_key ou ->
  entries td !! OUP.noise_key ou = None ->
  entries td !! OUP.steps_key ou = Some stale ->
  entries td !! OUP.key ou = Some (FloatTensor A) ->
  length A = batch_size td ->
  exists td',
    OUP.add_sample np_sqrt randn_like ou td eps = Ok td'
    /\ batch_size td' = batch_size td
    /\ entries td' !! OUP.steps_key ou
       = Some (LongTensor (replicate (batch_size td) [1%Z]))
    /\ (exists N', entries td' !! OUP.noise_key ou = Some (FloatTensor N')
                   /\ length <$> N' = length <$> A)
    /\ (exists A', entries td' !! OUP.key ou = Some (FloatTensor A')
                   /\ length <$> A' = length <$> A)
    /\ (forall k, k <> OUP.key ou -> k <> OUP.noise_key ou ->
                  k <> OUP.steps_key ou -> entries td' !! k = entries td !! k).
Proof.
  intros Hrl Hx0 Hkn Hks Hns Hnone _ HA HB.
  destruct (add_sample_first_call randn_like ou td eps q A)
    as (N' & A' & Hrun & HshN & HshA); try assumption.
  eexists. split; [exact Hrun|]. cbn [batch_size entries].
  split; [reflexivity|]. split; [apply lookup_insert_eq|].
  split; [|split].
  - exists N'. split; [|exact HshN].
    rewrite !lookup_insert_ne by congruence. apply lookup_insert_eq.
  - exists A'. split; [|exact HshA].
    rewrite lookup_insert_ne by congruence. apply lookup_insert_eq.
  - intros k H1 H2 H3. rewrite !lookup_insert_ne by congruence. reflexivity.
Qed.

(** X11.  On a record that holds the action, the noise and the step
    counter, [add_sample] touches these three entries only: the batch size,
    the set of keys and every other entry are unchanged, and the shapes of
    the noise and of the action are kept. *)
Theorem add_sample_touches_three_entries
  (randn_like : tensor -> tensor) (ou : OUP.t) (td : tensordict) (eps q : Q)
  (P A : list (list Q)) (S : list Z) :
  randn_like_shaped randn_like ->
  OUP.x0 ou = OUP.X0Float q ->
  OUP.key ou <> OUP.noise_key ou ->
  OUP.key ou <> OUP.steps_key ou ->
  OUP.noise_key ou <> OUP.steps_key ou ->
  entries td !! OUP.noise_key ou = Some (FloatTensor P) ->
  entries td !! OUP.key ou = Some (FloatTensor A) ->
  entries td !! OUP.steps_key ou = Some (LongTensor ((fun s => [s]) <$> S)) ->
  length <$> A = length <$> P ->
  length S = length P ->
  length P = batch_size td ->
  exists td',
    OUP.add_sample np_sqrt randn_like ou td eps = Ok td'
    /\ batch_size td' = batch_size td
    /\ dom (entries td') = dom (entries td)
    /\ (forall k, k <> OUP.key ou -> k <> OUP.noise_key ou ->
                  k <> OUP.steps_key ou -> entries td' !! k = entries td !! k)
    /\ (shape <$> entries td') = (shape <$> entries td).
Proof.
  intros Hrl Hx0 Hkn Hks Hns HP HA HS HshA HlenS HB.
  destruct (Hrl (FloatTensor (map2d (fun p => p + q)%Q P))) as (W & HW & HshW).
  cbn [shape] in HshW. rewrite shape_map2d in HshW.
  destruct (add_sample_explicit np_sqrt randn_like ou td eps q P A W S)
    as (N' & A' & Hrun & HshN & HshA' & _); try assumption.
  eexists. split; [exact Hrun|]. cbn [batch_size entries].
  split; [reflexivity|]. split; [|split].
  - rewrite !dom_insert_lookup_L; [reflexivity | eauto | |].
    + rewrite lookup_insert_ne by congruence. eauto.
    + rewrite !lookup_insert_ne by congruence. eauto.
  - intros k H1 H2 H3. rewrite !lookup_insert_ne by congruence. reflexivity.
  - apply map_eq. intros k. rewrite !lookup_fmap.
    destruct (decide (k = OUP.steps_key ou)) as [->|Hk1].
    { rewrite lookup_insert_eq, HS. cbn. f_equal.
      rewrite <- !list_fmap_compose. reflexivity. }
    rewrite lookup_insert_ne by congruence.
    destruct (decide (k = OUP.key ou)) as [->|Hk2].
    { rewrite lookup_insert_eq, HA. cbn. congruence. }
    rewrite lookup_insert_ne by congruence.
    destruct (decide (k = OUP.noise_key ou)) as [->|Hk3].
    { rewrite lookup_insert_eq, HP. cbn. congruence. }
    rewrite lookup_insert_ne by congruence. reflexivity.
Qed.

Lemma wrap64_small (z : Z) :
  (- 2 ^ 63 <= z < 2 ^ 63)%Z -> wrap64 z = z.
Proof. intros H. unfold wrap64. rewrite Z.mod_small; lia. Qed.

(** X12.  Without a reset the counter keeps counting: on a record that
    holds the action, the noise and step counts [s_i], [k] successive calls
    (each with its own draws and epsilon) all succeed and leave the counts
    [s_i + k], as long as these stay below [2^63]. *)
Theorem add_samples_counts_calls
  (ou : OUP.t) (calls : list ((tensor -> tensor) * Q)) (td : tensordict) (q : Q)
  (P A : list (list Q)) (S : list Z) :
  Forall (fun c => randn_like_shaped c.1) calls ->
  OUP.x0 ou = OUP.X0Float q ->
  OUP.key ou <> OUP.noise_key ou ->
  OUP.key ou <> OUP.steps_key ou ->
  OUP.noise_key ou <> OUP.steps_key ou ->
  entries td !! OUP.noise_key ou = Some (FloatTensor P) ->
  entries td !! OUP.key ou = Some (FloatTensor A) ->
  entries td !! OUP.steps_key ou = Some (LongTensor ((fun s => [s]) <$> S)) ->
  length <$> A = length <$> P ->
  length S = length P ->
  length P = batch_size td ->
  Forall (fun s => - 2 ^ 63 <= s /\ s + Z.of_nat (length calls) < 2 ^ 63)%Z S ->
  exists td',
    add_samples np_sqrt ou calls td = Ok td'
    /\ entries td' !! OUP.steps_key ou
       = Some (LongTensor ((fun s => [(s + Z.of_nat (length calls))%Z]) <$> S)).
Proof.
  intros Hcalls Hx0 Hkn Hks Hns. revert td P A S.
  induction Hcalls as [|[rl eps] calls Hrl _ IH];
    intros td P A S HP HA HS HshA HlenS HB Hrange.
  - exists td. split; [reflexivity|]. rewrite HS. do 2 f_equal.
    apply list_fmap_ext. intros _ s _. cbn. f_equal. lia.
  - cbn [fst] in Hrl.
    destruct (add_sample_steps np_sqrt rl ou td eps q P A S)
      as (td1 & P1 & A1 & Hrun & Hb1 & HP1 & HA1 & HS1 & Hsh1 & Hlen1);
      try assumption.
    destruct (IH td1 P1 A1 ((fun s => wrap64 (s + 1)) <$> S))
      as (td' & Hrest & Hsteps); try assumption.
    { rewrite length_fmap. congruence. }
    { congruence. }
    { rewrite Forall_fmap. eapply Forall_impl; [exact Hrange|].
      cbn. intros s [H1 H2]. rewrite wrap64_small by lia. lia. }
    exists td'. cbn [add_samples]. rewrite Hrun. cbn [mbind result_bind].
    split; [exact Hrest|]. rewrite Hsteps. do 2 f_equal.
    rewrite <- list_fmap_compose. apply Forall_fmap_ext_1.
    eapply Forall_impl; [exact Hrange|]. cbn. intros s [H1 H2].
    rewrite wrap64_small by lia. f_equal. lia.
Qed.

End Bookkeeping.


Lemma unit_draws_shaped : randn_like_shaped unit_draws.
Proof.
  intros t. eexists. split; [reflexivity|]. rewrite shape_map2d.
  destruct t as [r|r]; cbn [shape to_float]; [reflexivity|apply shape_map2d].
Qed.

Lemma add_sample_restarts_counter_witness :
  exists td',
    OUP.add_sample tenth unit_draws sample_ou stale_record 1 = Ok td'
    /\ entries td' !! "_ou_steps" = Some (LongTensor [[1%Z]]).
Proof.
  destruct (add_sample_restarts_counter tenth unit_draws sample_ou stale_record
              1 0 [[1%Q; 2%Q]] (LongTensor [[41%Z]]))
    as (td' & Hrun & _ & Hsteps & _);
    try reflexivity; try discriminate; try exact unit_draws_shaped.
  exists td'. split; [exact Hrun | exact Hsteps].
Defined.

Lemma add_sample_touches_three_entries_witness :
  exists td',
    OUP.add_sample tenth unit_draws sample_ou sample_noise_record (1 # 2) = Ok td'
    /\ batch_size td' = 1%nat
    /\ dom (entries td') = dom (entries sample_noise_record).
Proof.
  destruct (add_sample_touches_three_entries tenth unit_draws sample_ou
              sample_noise_record (1 # 2) 0 [[0%Q; 1%Q]] [[1%Q; 2%Q]] [3%Z])
    as (td' & Hrun & Hb & Hdom & _);
    try reflexivity; try discriminate; try exact unit_draws_shaped.
  exists td'. split; [exact Hrun|]. split; [exact Hb | exact Hdom].
Defined.

Lemma add_samples_counts_calls_witness :
  exists td',
    add_samples tenth sample_ou
      [(unit_draws, 1%Q); (unit_draws, (1 # 2)%Q); (unit_draws, 0%Q)]
      sample_noise_record = Ok td'
    /\ entries td' !! "_ou_steps" = Some (LongTensor [[6%Z]]).
Proof.
  destruct (add_samples_counts_calls tenth sample_ou
              [(unit_draws, 1%Q); (unit_draws, (1 # 2)%Q); (unit_draws, 0%Q)]
              sample_noise_record 0 [[0%Q; 1%Q]] [[1%Q; 2%Q]] [3%Z])
    as (td' & Hrun & Hsteps);
    try reflexivity; try discriminate.
  - repeat constructor; exact unit_draws_shaped.
  - repeat constructor; cbn; lia.
  - exists td'. split; [exact Hrun | exact Hsteps].
Defined.

(** ** Buffering of the video recorder *)


Lemma mod_abs_zero (x s : Z) :
  s <> 0%Z -> ((x mod s =? 0) = (x mod Z.abs s =? 0))%Z.
Proof.
  intros Hs. apply eq_true_iff_eq. rewrite !Z.eqb_eq.
  rewrite !Z.mod_divide by lia. symmetry. apply Z.divide_abs_l.
Qed.

Lemma div_step (c a : Z) :
  (0 < a)%Z ->
  ((c + 1) / a - c / a = if (c + 1) mod a =? 0 then 1 else 0)%Z.
Proof.
  intros Ha.
  pose proof (Z.div_mod (c + 1) a ltac:(lia)) as H1.
  pose proof (Z.mod_pos_bound (c + 1) a Ha) as B1.
  destruct ((c + 1) mod a =? 0)%Z eqn:E.
  - apply Z.eqb_eq in E.
    assert (c / a = (c + 1) / a - 1)%Z as ->; [|lia].
    symmetry. apply (Z.div_unique_pos c a _ (a - 1)); [lia|]. nia.
  - apply Z.eqb_neq in E.
    assert (c / a = (c + 1) / a)%Z as ->; [|lia].
    symmetry. apply (Z.div_unique_pos c a _ ((c + 1) mod a - 1)); [lia|]. nia.
Qed.

Lemma length_picks {A} (s c : Z) (xs : list A) :
  s <> 0%Z ->
  Z.of_nat (length (picks s c xs))
  = ((c + Z.of_nat (length xs)) / Z.abs s - c / Z.abs s)%Z.
Proof.
  intros Hs. revert c. induction xs as [|x xs IH]; intros c.
  - cbn. rewrite Z.add_0_r. lia.
  - cbn [picks length]. rewrite Nat2Z.inj_succ.
    pose proof (div_step c (Z.abs s) ltac:(lia)) as Hd.
    rewrite <- (mod_abs_zero _ s Hs) in Hd.
    replace (c + Z.succ (Z.of_nat (length xs)))%Z
      with (c + 1 + Z.of_nat (length xs))%Z by lia.
    destruct ((c + 1) mod s =? 0)%Z; cbn [length];
      rewrite ?Nat2Z.inj_succ, IH; lia.
Qed.

Lemma video_feed_picks (frames : list frame) :
  forall r : VR.t,
    Forall bufferable frames -> VR.skip r <> 0%Z ->
    exists r' new,
      VR.feed r frames = (Ok (), r')
      /\ r' = VR.mk (VR.keys r) (VR.video_kwargs r) (VR.iter r) (VR.skip r)
                (VR.writer r) (VR.tag r)
                (VR.count r + Z.of_nat (length frames)) (VR.obs r ++ new)
      /\ Forall2 (fun y x => exists z, channel_first x = Ok z /\ y = to_uint8 z)
           new (picks (VR.skip r) (VR.count r) frames).
Proof.
  induction frames as [|x frames IH]; intros r Hall Hskip.
  - exists r, []. cbn. rewrite app_nil_r, Z.add_0_r.
    split; [reflexivity|]. split; [destruct r; reflexivity | constructor].
  - apply Forall_cons in Hall as [Hx Hall].
    destruct (apply_bufferable r x Hx Hskip) as (y & Hy & Happ).
    cbn [VR.feed picks]. rewrite Happ.
    destruct ((VR.count r + 1) mod VR.skip r =? 0)%Z.
    + destruct (IH (VR.append_obs (VR.set_count r (VR.count r + 1)) (to_uint8 y))
                  Hall Hskip) as (r' & new & Hfeed & Hr' & Hnew).
      exists r', (to_uint8 y :: new). split; [exact Hfeed|].
      split.
      * rewrite Hr'. cbn. rewrite <- app_assoc. f_equal. lia.
      * constructor; [eauto | exact Hnew].
    + destruct (IH (VR.set_count r (VR.count r + 1)) Hall Hskip)
        as (r' & new & Hfeed & Hr' & Hnew).
      exists r', new. split; [exact Hfeed|].
      split; [|exact Hnew].
      rewrite Hr'. cbn. f_equal. lia.
Qed.

(** X13.  Feeding [N] frames of rank 2, or of rank 3 with three channels
    last, to a recorder with any non-zero [skip]: no call raises, the
    counter advances by [N], and the buffer receives, in order, the
    channel-first 8-bit copies of exactly the frames whose call number is a
    multiple of [skip]; from a counter at zero that is [N / |skip|]
    frames.  Nothing else of the recorder changes. *)
Theorem video_feed_every_skip (r : VR.t) (frames : list frame) :
  Forall bufferable frames -> VR.skip r <> 0%Z ->
  exists r' new,
    VR.feed r frames = (Ok (), r')
    /\ r' = VR.mk (VR.keys r) (VR.video_kwargs r) (VR.iter r) (VR.skip r)
              (VR.writer r) (VR.tag r)
              (VR.count r + Z.of_nat (length frames)) (VR.obs r ++ new)
    /\ Forall2 (fun y x => exists z, channel_first x = Ok z /\ y = to_uint8 z)
         new (picks (VR.skip r) (VR.count r) frames)
    /\ (VR.count r = 0%Z ->
        Z.of_nat (length new) = (Z.of_nat (length frames) / Z.abs (VR.skip r))%Z).
Proof.
  intros Hall Hskip.
  destruct (video_feed_picks frames r Hall Hskip) as (r' & new & Hfeed & Hr' & Hnew).
  exists r', new. split; [exact Hfeed|]. split; [exact Hr'|]. split; [exact Hnew|].
  intros Hc. rewrite (Forall2_length _ _ _ Hnew), length_picks by exact Hskip.
  rewrite Hc. cbn. rewrite Z.sub_0_r. reflexivity.
Qed.

Lemma video_feed_every_skip_witness :
  exists r',
    VR.feed (VR.mk ["next_pixels"] [("fps", 6%Z)] 0 3 [] "video" 0 [])
      [gray_frame; gray_frame; gray_frame; gray_frame; gray_frame; gray_frame;
       gray_frame]
    = (Ok (), r')
    /\ length (VR.obs r') = 2%nat /\ VR.count r' = 7%Z.
Proof.
  destruct (video_feed_every_skip
              (VR.mk ["next_pixels"] [("fps", 6%Z)] 0 3 [] "video" 0 [])
              [gray_frame; gray_frame; gray_frame; gray_frame; gray_frame;
               gray_frame; gray_frame])
    as (r' & new & Hfeed & Hr' & _ & Hlen); [repeat constructor | discriminate |].
  exists r'. split; [exact Hfeed|]. rewrite Hr'. cbn [VR.obs VR.count app].
  split; [|reflexivity].
  apply Nat2Z.inj. rewrite Hlen; reflexivity.
Defined.

(** X14.  With [skip = 0] the modulo fails: every frame that passes the
    shape check makes [_apply] raise [ZeroDivisionError], and every call of
    [_call] of the tensordict recorder does the same; in both the counter
    has already been advanced and the buffer is left as it was. *)
Theorem zero_skip_raises (r : VR.t) (x : frame) (t : TR.t) (d : tensordict) :
  (shape_ok x -> VR.skip r = 0%Z ->
     VR._apply r x = (Raise ZeroDivisionError, VR.set_count r (VR.count r + 1)))
  /\ (TR.skip t = 0%Z ->
      TR._call t d
      = (Raise ZeroDivisionError,
         TR.mk (TR.keys t) (TR.iter t) (TR.out_file_base t) (TR.td t)
           (TR.skip_reset t) (TR.skip t) (TR.count t + 1) (TR.tag t))).
Proof.
  split.
  - intros Hok Hs. unfold VR._apply, last_dim.
    destruct (last (dims x)) as [l|] eqn:Hl.
    + assert ((l =? 3)%nat || (ndimension x =? 2)%nat = true) as ->.
      { destruct Hok as [H|H].
        - assert (l = 3%nat) as -> by congruence. reflexivity.
        - rewrite H. apply orb_true_r. }
      cbn [negb VR.skip VR.set_count]. rewrite Hs. reflexivity.
    + exfalso. destruct Hok as [H|H]; [congruence|].
      apply last_None in Hl. unfold ndimension in H. rewrite Hl in H. discriminate.
  - intros Hs. unfold TR._call. cbn [TR.skip]. rewrite Hs. reflexivity.
Qed.

Lemma stack_frames_ok (l : list frame) (clip : frame) :
  (torch_stack l : result frame) = Ok clip ->
  exists x rest,
    l = x :: rest
    /\ Forall (fun y => dims y = dims x) l
    /\ clip = Frame (length l :: dims x) (dty x) (concat (data <$> l)).
Proof.
  destruct l as [|x rest]; [discriminate|]. cbn.
  destruct (forallb _ rest) eqn:Hall; [|discriminate].
  intros [= <-]. exists x, rest. split; [reflexivity|]. split; [|reflexivity].
  constructor; [reflexivity|]. apply Forall_forall. intros y Hy.
  rewrite forallb_forall in Hall. apply list_elem_of_In in Hy.
  specialize (Hall y Hy). apply bool_decide_eq_true in Hall. congruence.
Qed.

Lemma stack_frames_same (d : list nat) (l : list frame) :
  l <> [] -> Forall (fun y => dims y = d) l ->
  exists clip, (torch_stack l : result frame) = Ok clip.
Proof.
  intros Hne Hall. destruct l as [|x rest]; [congruence|].
  destruct (stack_same_dims d x rest Hall) as (clip & H & _). eauto.
Qed.

(** X15.  [dump] of the video recorder is all or nothing.  It succeeds
    exactly when the buffer is non-empty and its frames have one common
    shape.  Then the writer receives one more video, tagged with the tag
    (joined with the suffix by ["_"]), numbered with the old [iter], made
    of the buffered frames in order under two new leading dimensions
    [1] and the number of frames; [iter] grows by one, the counter is zero
    and the buffer empty.  When it raises, the recorder is unchanged. *)
Theorem video_dump_all_or_nothing (r : VR.t) (suffix : option string) :
  ((VR.dump r suffix).1 = Ok ()
   <-> VR.obs r <> [] /\ exists d, Forall (fun y => dims y = d) (VR.obs r))
  /\ (raises (VR.dump r suffix).1 -> (VR.dump r suffix).2 = r)
  /\ ((VR.dump r suffix).1 = Ok () ->
      exists x rest,
        VR.obs r = x :: rest
        /\ (VR.dump r suffix).2
           = VR.mk (VR.keys r) (VR.video_kwargs r) (VR.iter r + 1) (VR.skip r)
               (VR.Video (join_tag (VR.tag r) suffix)
                  (Frame (1%nat :: length (VR.obs r) :: dims x) (dty x)
                     (concat (data <$> VR.obs r)))
                  (VR.iter r) (VR.video_kwargs r) :: VR.writer r)
               (VR.tag r) 0 []).
Proof.
  unfold VR.dump, raises.
  destruct (@torch_stack frame frame_stackable (VR.obs r)) as [clip|e] eqn:Hst;
    cbn [mbind result_bind].
  - rewrite unsqueeze_front. cbn [fst snd].
    destruct (stack_frames_ok _ _ Hst) as (x & rest & Hobs & Hall & Hclip).
    split; [|split].
    + split; [|reflexivity]. intros _. split; [congruence | eauto].
    + intros [e He]. discriminate.
    + intros _. exists x, rest. split; [exact Hobs|]. rewrite Hclip. reflexivity.
  - cbn [fst snd]. split; [|split].
    + split; [discriminate|]. intros [Hne [d Hd]].
      destruct (stack_frames_same d _ Hne Hd) as [clip Hclip]. congruence.
    + reflexivity.
    + discriminate.
Qed.

(** X16.  What [_apply] never does.  For every recorder and every frame:
    the keys, the video options, [iter], [skip], the writer and the tag are
    untouched; the counter stays or grows by one; the buffer is kept as a
    prefix and grows by at most one frame, an 8-bit one, and only in a call
    that returns and whose new counter is a multiple of [skip]. *)
Theorem video_apply_frame (r : VR.t) (x : frame) :
  let r' := (VR._apply r x).2 in
  VR.keys r' = VR.keys r /\ VR.video_kwargs r' = VR.video_kwargs r
  /\ VR.iter r' = VR.iter r /\ VR.skip r' = VR.skip r
  /\ VR.writer r' = VR.writer r /\ VR.tag r' = VR.tag r
  /\ (VR.count r' = VR.count r \/ VR.count r' = (VR.count r + 1)%Z)
  /\ (VR.obs r' = VR.obs r
      \/ exists y, VR.obs r' = VR.obs r ++ [y] /\ dty y = uint8
                   /\ (VR._apply r x).1 = Ok x
                   /\ VR.skip r <> 0%Z
                   /\ (VR.count r' mod VR.skip r = 0)%Z).
Proof.
  cbn zeta. unfold VR._apply.
  destruct (last_dim x) as [l|e]; [|cbn; tauto].
  destruct (negb _); [cbn; tauto|].
  cbn [VR.skip VR.set_count VR.count].
  destruct (VR.skip r =? 0)%Z eqn:Hs; [cbn; tauto|].
  destruct ((VR.count r + 1) mod VR.skip r =? 0)%Z eqn:Hm; [|cbn; tauto].
  destruct (if (ndimension x =? 2)%nat then _ else _) as [y|e]; [|cbn; tauto].
  cbn. repeat split; try tauto. right. exists (to_uint8 y).
  split; [reflexivity|]. split; [apply dty_to_uint8|]. split; [reflexivity|].
  split; [apply Z.eqb_neq, Hs | apply Z.eqb_eq, Hm].
Qed.

(** X17.  A frame with three channels last whose rank is neither 2 nor 3
    passes the shape check but cannot be buffered: on a call whose number
    is not a multiple of [skip] it is returned as any other frame, and on a
    call whose number is one it raises [RuntimeError]; either way the
    counter is advanced and the buffer unchanged. *)
Theorem video_unbufferable_frame (r : VR.t) (x : frame) :
  last (dims x) = Some 3%nat ->
  ndimension x <> 2%nat -> ndimension x <> 3%nat ->
  VR.skip r <> 0%Z ->
  VR._apply r x
  = (if ((VR.count r + 1) mod VR.skip r =? 0)%Z
     then Raise (RuntimeError "observation is expected to have 3 dimensions")
     else Ok x,
     VR.set_count r (VR.count r + 1)).
Proof.
  intros Hl H2 H3 Hs. unfold VR._apply, last_dim. rewrite Hl.
  cbn [Nat.eqb orb negb VR.skip VR.set_count VR.count].
  apply Z.eqb_neq in Hs. rewrite Hs.
  apply Nat.eqb_neq in H2, H3. rewrite H2, H3. cbn [negb].
  destruct ((VR.count r + 1) mod VR.skip r =? 0)%Z; reflexivity.
Qed.

Lemma video_unbufferable_frame_witness :
  VR._apply (VR.mk ["next_pixels"] [("fps", 6%Z)] 0 2 [] "video" 0 [])
    rgb_batch_frame
  = (Ok rgb_batch_frame,
     VR.mk ["next_pixels"] [("fps", 6%Z)] 0 2 [] "video" 1 [])
  /\ VR._apply (VR.mk ["next_pixels"] [("fps", 6%Z)] 0 2 [] "video" 1 [])
       rgb_batch_frame
     = (Raise (RuntimeError "observation is expected to have 3 dimensions"),
        VR.mk ["next_pixels"] [("fps", 6%Z)] 0 2 [] "video" 2 []).
Proof.
  split.
  - apply (video_unbufferable_frame
             (VR.mk ["next_pixels"] [("fps", 6%Z)] 0 2 [] "video" 0 [])
             rgb_batch_frame); [reflexivity | discriminate | discriminate | discriminate].
  - apply (video_unbufferable_frame
             (VR.mk ["next_pixels"] [("fps", 6%Z)] 0 2 [] "video" 1 [])
             rgb_batch_frame); [reflexivity | discriminate | discriminate | discriminate].
Defined.

(** ** Buffering and dumps of the tensordict recorder *)


Lemma select_pairs (x : tensordict) (ks : list string) :
  Forall (fun k => is_Some (entries x !! k)) ks ->
  exists es,
    map_result (fun k => v ← get x k; Ok (k, v)) ks = Ok es
    /\ es.*1 = ks
    /\ Forall (fun kv => entries x !! kv.1 = Some kv.2) es.
Proof.
  induction 1 as [|k ks [v Hv] _ (es & Hes & Hk & Hall)].
  - exists []. repeat split. constructor.
  - exists ((k, v) :: es). cbn [map_result]. rewrite (get_present _ _ _ Hv).
    cbn [mbind result_bind]. rewrite Hes. cbn.
    split; [reflexivity|]. split; [congruence|]. constructor; assumption.
Qed.

Lemma select_present (x : tensordict) (ks : list string) :
  Forall (fun k => is_Some (entries x !! k)) ks ->
  exists y,
    TR.select x ks = Ok y
    /\ batch_size y = batch_size x
    /\ forall k, entries y !! k = if decide (k ∈ ks) then entries x !! k else None.
Proof.
  intros Hall. destruct (select_pairs x ks Hall) as (es & Hes & Hk & Hvals).
  unfold TR.select. rewrite Hes. cbn [mbind result_bind].
  eexists. split; [reflexivity|]. split; [reflexivity|].
  intros k. cbn [entries]. destruct (decide (k ∈ ks)) as [Hin|Hin].
  - rewrite Forall_forall in Hall. destruct (Hall k Hin) as [v Hv]. rewrite Hv.
    rewrite Forall_forall in Hvals.
    apply elem_of_list_to_map_1'.
    + intros v' Hin'. specialize (Hvals _ Hin'). cbn in Hvals.
      rewrite Hv in Hvals. injection Hvals as ->. reflexivity.
    + rewrite <- Hk in Hin. apply list_elem_of_fmap in Hin as [[k' v'] [-> Hin']].
      specialize (Hvals _ Hin') as Hv'. cbn in Hv', Hv |- *.
      rewrite Hv in Hv'. injection Hv' as ->. exact Hin'.
  - apply not_elem_of_list_to_map_1. rewrite Hk. exact Hin.
Qed.

Lemma select_missing (x : tensordict) (ks : list string) (k : string) :
  k ∈ ks -> entries x !! k = None ->
  exists k', k' ∈ ks /\ entries x !! k' = None
             /\ TR.select x ks = Raise (KeyError k').
Proof.
  intros Hin Hk.
  assert (exists k', k' ∈ ks /\ entries x !! k' = None
                     /\ map_result (fun k => v ← get x k; Ok (k, v)) ks
                        = Raise (KeyError k')) as (k' & Hk' & Hnone & Hrun).
  { induction ks as [|k0 ks IH]; [inversion Hin|].
    cbn [map_result]. destruct (entries x !! k0) as [v0|] eqn:H0.
    - assert (k ∈ ks) as Hin'.
      { apply elem_of_cons in Hin as [->|Hin]; [congruence | exact Hin]. }
      destruct (IH Hin') as (k' & Hk' & Hnone & Hrun).
      exists k'. split; [right; exact Hk'|]. split; [exact Hnone|].
      rewrite (get_present _ _ _ H0), Hrun. reflexivity.
    - exists k0. split; [left|]. split; [exact H0|].
      unfold get. rewrite H0. reflexivity. }
  exists k'. split; [exact Hk'|]. split; [exact Hnone|].
  unfold TR.select. rewrite Hrun. reflexivity.
Qed.

(** X18.  One call of the tensordict recorder, [skip] non-zero.  The call
    returns the record it was given and advances the counter.  When the
    new counter is not a multiple of [skip] nothing is buffered.  When it
    is: with no keys the record itself is appended; with keys, all present,
    a snapshot holding exactly these keys with the record's entries and
    batch size is appended; with a key missing the call raises [KeyError]
    and the buffer is unchanged. *)
Theorem tensordict_call_snapshot (t : TR.t) (x : tensordict) :
  TR.skip t <> 0%Z ->
  (((TR.count t + 1) mod TR.skip t <> 0)%Z ->
     TR._call t x = (Ok x, TR_advance t))
  /\ (((TR.count t + 1) mod TR.skip t = 0)%Z ->
      (TR.keys t = [] ->
         TR._call t x = (Ok x, TR_append (TR_advance t) x))
      /\ (TR.keys t <> [] ->
          Forall (fun k => is_Some (entries x !! k)) (TR.keys t) ->
          exists y,
            TR._call t x = (Ok x, TR_append (TR_advance t) y)
            /\ batch_size y = batch_size x
            /\ forall k, entries y !! k
                         = if decide (k ∈ TR.keys t) then entries x !! k else None)
      /\ (forall k, k ∈ TR.keys t -> entries x !! k = None ->
          exists k', k' ∈ TR.keys t /\ entries x !! k' = None
                     /\ TR._call t x = (Raise (KeyError k'), TR_advance t))).
Proof.
  intros Hs. apply Z.eqb_neq in Hs. unfold TR._call.
  cbn [TR.skip TR.count TR.keys TR.iter TR.out_file_base TR.td TR.skip_reset TR.tag].
  rewrite Hs. split.
  - intros Hm. apply Z.eqb_neq in Hm. rewrite Hm. reflexivity.
  - intros Hm. apply Z.eqb_eq in Hm. rewrite Hm. split; [|split].
    + intros Hk. unfold TR_append, TR_advance. cbn. rewrite Hk. reflexivity.
    + intros Hne Hall. destruct (select_present x (TR.keys t) Hall) as (y & Hy & Hb & Hl).
      exists y. destruct (TR.keys t) as [|k0 ks] eqn:Hk; [congruence|].
      rewrite Hy. split; [unfold TR_append, TR_advance; cbn; rewrite Hk; reflexivity|].
      split; assumption.
    + intros k Hin Hnone.
      destruct (select_missing x (TR.keys t) k Hin Hnone) as (k' & Hk' & Hn' & Hrun).
      exists k'. split; [exact Hk'|]. split; [exact Hn'|].
      destruct (TR.keys t) as [|k0 ks] eqn:Hk; [inversion Hin|].
      rewrite Hrun. unfold TR_advance. rewrite Hk. reflexivity.
Qed.

Lemma tensordict_call_snapshot_witness :
  exists y,
    TR._call (TR.mk ["observation"] 0 "out" [] true 1 0 None)
      (TensorDict 1 (<["reward" := FloatTensor [[1%Q]]]>
                       {[ "observation" := FloatTensor [[5%Q]] ]}))
    = (Ok (TensorDict 1 (<["reward" := FloatTensor [[1%Q]]]>
                           {[ "observation" := FloatTensor [[5%Q]] ]})),
       TR.mk ["observation"] 0 "out" [y] true 1 1 None)
    /\ entries y !! "observation" = Some (FloatTensor [[5%Q]])
    /\ entries y !! "reward" = None.
Proof.
  destruct (tensordict_call_snapshot
              (TR.mk ["observation"] 0 "out" [] true 1 0 None)
              (TensorDict 1 (<["reward" := FloatTensor [[1%Q]]]>
                               {[ "observation" := FloatTensor [[5%Q]] ]})))
    as [_ Hon]; [discriminate|].
  destruct (Hon eq_refl) as (_ & Hsel & _).
  destruct Hsel as (y & Hrun & _ & Hl); [discriminate | |].
  { repeat constructor. eexists. reflexivity. }
  exists y. split; [exact Hrun|]. split.
  - rewrite Hl. reflexivity.
  - rewrite Hl. reflexivity.
Defined.

Lemma record_all_picks (xs : list tensordict) :
  forall t : TR.t,
    TR.keys t = [] -> TR.skip t <> 0%Z ->
    record_all t xs
    = (Ok (),
       TR.mk (TR.keys t) (TR.iter t) (TR.out_file_base t)
         (TR.td t ++ picks (TR.skip t) (TR.count t) xs)
         (TR.skip_reset t) (TR.skip t) (TR.count t + Z.of_nat (length xs))
         (TR.tag t)).
Proof.
  induction xs as [|x xs IH]; intros t Hk Hs.
  - cbn. rewrite app_nil_r, Z.add_0_r. destruct t; reflexivity.
  - cbn [record_all picks].
    destruct (tensordict_call_snapshot t x Hs) as [Hoff Hon].
    destruct ((TR.count t + 1) mod TR.skip t =? 0)%Z eqn:Hm.
    + apply Z.eqb_eq in Hm. destruct (Hon Hm) as (Hrun & _). rewrite (Hrun Hk).
      rewrite IH by assumption. cbn. rewrite <- app_assoc. do 2 f_equal. lia.
    + apply Z.eqb_neq in Hm. rewrite (Hoff Hm).
      rewrite IH by assumption. cbn. do 2 f_equal. lia.
Qed.

(** X19.  A tensordict recorder without keys and with a non-zero [skip],
    called on [N] records: no call raises, the counter advances by [N]
    and the buffer receives, in order, exactly the records whose call
    number is a multiple of [skip]; from a counter at zero that is
    [N / |skip|] records.  Nothing else of the recorder changes. *)
Theorem tensordict_record_every_skip (t : TR.t) (xs : list tensordict) :
  TR.keys t = [] -> TR.skip t <> 0%Z ->
  record_all t xs
  = (Ok (),
     TR.mk (TR.keys t) (TR.iter t) (TR.out_file_base t)
       (TR.td t ++ picks (TR.skip t) (TR.count t) xs)
       (TR.skip_reset t) (TR.skip t) (TR.count t + Z.of_nat (length xs))
       (TR.tag t))
  /\ (TR.count t = 0%Z ->
      Z.of_nat (length (picks (TR.skip t) (TR.count t) xs))
      = (Z.of_nat (length xs) / Z.abs (TR.skip t))%Z).
Proof.
  intros Hk Hs. split; [apply record_all_picks; assumption|].
  intros Hc. rewrite length_picks by exact Hs. rewrite Hc. cbn.
  rewrite Z.sub_0_r. reflexivity.
Qed.

Lemma tensordict_record_every_skip_witness :
  record_all (TR.__init__ None "out" true 4 None)
    [snapshot 1; snapshot 2; snapshot 3; snapshot 4; snapshot 5; snapshot 6;
     snapshot 7; snapshot 8; snapshot 9]
  = (Ok (), TR.mk [] 0 "out" [snapshot 4; snapshot 8] true 4 9 None).
Proof.
  destruct (tensordict_record_every_skip (TR.__init__ None "out" true 4 None)
              [snapshot 1; snapshot 2; snapshot 3; snapshot 4; snapshot 5;
               snapshot 6; snapshot 7; snapshot 8; snapshot 9])
    as [Hrun _]; [reflexivity | discriminate |].
  rewrite Hrun. reflexivity.
Defined.





